(** * StreamNova: banner carousel, debounced search, details modal, rows

    A shallow embedding of the UI logic of the StreamNova front-end
    (React/TypeScript) and the properties of its specification.

    React state is modelled by explicit state passing: every component is
    a record of its [useState] cells, every handler is a function on that
    record, and timers ([setTimeout]) are kept in the state as pending
    entries that a separate step fires.  Promises are modelled by their
    outcome (rejected, or resolved with a value), supplied as an argument
    to the continuation of the handler that awaits them.

    Part I holds the definitions, one module per source component;
    Part II holds the theorems. *)

From stdpp Require Import base list gmap strings.
From Stdlib Require Import ZArith Lia Ascii String DecimalString.

Open Scope Z_scope.

(* ===================================================================== *)
(** * Part I: definitions                                                  *)
(* ===================================================================== *)

(** ** JavaScript values as the components read them *)

Module JS.

(** A property of a JSON object: missing ([undefined]), [null], or a value. *)
Inductive field (A : Type) : Type :=
| undefined : field A
| null : field A
| val (a : A) : field A.

Arguments undefined {A}.
Arguments null {A}.
Arguments val {A} a.

(** JavaScript truthiness of the values the components test. *)
Class Truthy (A : Type) := truthy : A -> bool.

#[export] Instance truthy_Z : Truthy Z := fun n => negb (n =? 0).
#[export] Instance truthy_string : Truthy string :=
  fun s => match s with EmptyString => false | String _ _ => true end.
(** Arrays and objects are always truthy. *)
#[export] Instance truthy_list {A} : Truthy (list A) := fun _ => true.
#[export] Instance truthy_field {A} `{Truthy A} : Truthy (field A) :=
  fun f => match f with val a => truthy a | _ => false end.

(** [x !== undefined] *)
Definition defined {A} (f : field A) : bool :=
  match f with undefined => false | _ => true end.

(** [a || b] on two properties of the same type. *)
Definition or_else {A} `{Truthy A} (a b : field A) : field A :=
  if truthy a then a else b.

(** [a || d] where [d] is a literal default. *)
Definition or_default {A} `{Truthy A} (a : field A) (d : A) : A :=
  match a with
  | val x => if truthy x then x else d
  | _ => d
  end.

(** [x === 's'] for a string literal. *)
Definition is_string (f : field string) (s : string) : bool :=
  match f with val x => String.eqb x s | _ => false end.

(** Template-literal rendering of an integer.  The digits are those
    JavaScript prints for every integer below 10^21 in magnitude, which
    covers all the integers a JavaScript number holds exactly (up to
    2^53); from 10^21 on JavaScript switches to exponent notation. *)
Definition show (n : Z) : string := NilZero.string_of_int (Z.to_int n).

(** The value of a text input: a JavaScript string as the sequence of its
    UTF-16 code units, which is what [length] counts, [===] compares and
    [trim] inspects. *)
Definition utf16 : Type := list N.

(** [a === b] on two such strings. *)
Fixpoint utf16_eqb (a b : utf16) : bool :=
  match a, b with
  | [], [] => true
  | x :: a', y :: b' => N.eqb x y && utf16_eqb a' b'
  | _, _ => false
  end.

(** The code units of a literal written in ASCII: one unit per
    character. *)
Definition units (s : string) : utf16 :=
  map N_of_ascii (list_ascii_of_string s).

(** The outcome of awaiting a promise. *)
Inductive promise (A : Type) : Type :=
| Rejects : promise A
| Resolves (a : A) : promise A.

Arguments Rejects {A}.
Arguments Resolves {A} a.

End JS.

Import JS.

(** ** The catalog item objects ([Movie] of lib/tmdb, [any] in the modal) *)

Record Season := {
  season_number : field Z;
  episode_count : field Z
}.

Record ExternalIds := {
  ext_imdb_id : field string        (* external_ids.imdb_id *)
}.

#[export] Instance truthy_ExternalIds : Truthy ExternalIds := fun _ => true.

Record Movie := {
  id : field Z;
  title : field string;
  name : field string;
  media_type : field string;
  poster_path : field string;
  backdrop_path : field string;
  first_air_date : field string;
  number_of_seasons : field Z;
  seasons : field (list Season);
  imdb_id : field string;
  external_ids : field ExternalIds
}.

#[export] Instance truthy_Movie : Truthy Movie := fun _ => true.

(** ** Series hydration shared by both click handlers

    [App.handleMovieClick] and [Navbar.handleMovieClick] fetch a series
    with the same request and patch the response with the same three
    assignments. *)

(** What [fetch] resolves to: the [ok] flag and the outcome of [json()];
    [None] stands for a body that is not an object. *)
Record Response := {
  ok : bool;
  json : promise (option Movie)
}.

(** The three in-place assignments on a fetched series object
    (App.tsx lines 90-101, Navbar lines 359-370). *)
Definition mapTV (details : Movie) : Movie :=
  {| id := id details;
     title := if truthy (name details) && negb (truthy (title details))
              then name details else title details;
     name := name details;
     media_type := val "tv"%string;
     poster_path := poster_path details;
     backdrop_path := backdrop_path details;
     first_air_date := first_air_date details;
     number_of_seasons := number_of_seasons details;
     seasons := seasons details;
     imdb_id :=
       match external_ids details with
       | val e => if truthy (ext_imdb_id e) then ext_imdb_id e
                  else imdb_id details
       | _ => imdb_id details
       end;
     external_ids := external_ids details |}.

(** ** Banner.tsx: the carousel controller *)

Module Banner.

(** ['left' | 'right']; the spec calls ['right'] forward and ['left']
    backward. *)
Inductive direction := SlideLeft | SlideRight.

(** The state updater passed to [setCurrentIndex] by each entry point. *)
Inductive update :=
| Unext                 (* nextSlide *)
| Uprev                 (* prevSlide *)
| Ugoto (index : Z).    (* goToSlide(index) *)

(** The two staged timeouts of a transition: 200 ms until the index
    changes, then 300 ms until the transitioning flag clears. *)
Inductive timer :=
| Tshift (u : update)
| Tsettle.

Record state := {
  currentIndex : Z;
  prevIndex : Z;
  isTransitioning : bool;
  slideDirection : direction;
  isPaused : bool;
  showModal : bool;
  timers : list timer
}.

(** [useState] initial values. *)
Definition initial : state :=
  {| currentIndex := 0; prevIndex := 0; isTransitioning := false;
     slideDirection := SlideRight; isPaused := false; showModal := false;
     timers := [] |}.

Definition set_currentIndex (i : Z) (s : state) : state :=
  {| currentIndex := i; prevIndex := prevIndex s;
     isTransitioning := isTransitioning s;
     slideDirection := slideDirection s; isPaused := isPaused s;
     showModal := showModal s; timers := timers s |}.

Definition set_prevIndex (i : Z) (s : state) : state :=
  {| currentIndex := currentIndex s; prevIndex := i;
     isTransitioning := isTransitioning s;
     slideDirection := slideDirection s; isPaused := isPaused s;
     showModal := showModal s; timers := timers s |}.

Definition set_isTransitioning (b : bool) (s : state) : state :=
  {| currentIndex := currentIndex s; prevIndex := prevIndex s;
     isTransitioning := b;
     slideDirection := slideDirection s; isPaused := isPaused s;
     showModal := showModal s; timers := timers s |}.

Definition set_slideDirection (d : direction) (s : state) : state :=
  {| currentIndex := currentIndex s; prevIndex := prevIndex s;
     isTransitioning := isTransitioning s;
     slideDirection := d; isPaused := isPaused s;
     showModal := showModal s; timers := timers s |}.

Definition set_timers (ts : list timer) (s : state) : state :=
  {| currentIndex := currentIndex s; prevIndex := prevIndex s;
     isTransitioning := isTransitioning s;
     slideDirection := slideDirection s; isPaused := isPaused s;
     showModal := showModal s; timers := ts |}.

Section WithMovies.

(** [movies.length] *)
Variable L : Z.

(** The value the direction [useEffect] passes to [setSlideDirection]:
    its if / else-if / else chain (lines 30-36) on the two indices. *)
Definition direction_of (prev cur : Z) : direction :=
  if (prev =? L - 1) && (cur =? 0) then SlideRight
  else if (prev =? 0) && (cur =? L - 1) then SlideLeft
  else if cur >? prev then SlideRight else SlideLeft.

(** The body of that effect (lines 26-38). *)
Definition directionEffect (s : state) : state :=
  if isTransitioning s
  then set_slideDirection (direction_of (prevIndex s) (currentIndex s)) s
  else s.

(** The dependency array of that effect, [movies.length] being fixed:
    whether a render finds every dependency as the previous one left it. *)
Definition same_deps (old new : state) : bool :=
  (currentIndex old =? currentIndex new)
  && (prevIndex old =? prevIndex new)
  && Bool.eqb (isTransitioning old) (isTransitioning new).

(** A render after a batch of state updates: the effect runs when one of
    its dependencies changed. *)
Definition commit (old new : state) : state :=
  if same_deps old new then new else directionEffect new.

(** The functional updaters given to [setCurrentIndex]. *)
Definition apply_update (u : update) (cur : Z) : Z :=
  match u with
  | Unext => if cur =? L - 1 then 0 else cur + 1
  | Uprev => if cur =? 0 then L - 1 else cur - 1
  | Ugoto index => index
  end.

(** The part the three entry points share after their guard. *)
Definition begin_transition (u : update) (s : state) : state :=
  commit s
    (set_timers (timers s ++ [Tshift u])
       (set_prevIndex (currentIndex s) (set_isTransitioning true s))).

Definition nextSlide (s : state) : state :=
  if isTransitioning s then s else begin_transition Unext s.

Definition prevSlide (s : state) : state :=
  if isTransitioning s then s else begin_transition Uprev s.

Definition goToSlide (index : Z) (s : state) : state :=
  if isTransitioning s || (index =? currentIndex s) then s
  else begin_transition (Ugoto index) s.

(** The oldest pending timeout fires. *)
Definition fire (s : state) : state :=
  match timers s with
  | [] => s
  | Tshift u :: rest =>
      commit s
        (set_timers (rest ++ [Tsettle])
           (set_currentIndex (apply_update u (currentIndex s)) s))
  | Tsettle :: rest =>
      commit s (set_timers rest (set_isTransitioning false s))
  end.

(** A whole transition: the entry point, then both timeouts. *)
Definition advance (s : state) : state := fire (fire (nextSlide s)).
Definition retreat (s : state) : state := fire (fire (prevSlide s)).
Definition jumpTo (index : Z) (s : state) : state :=
  fire (fire (goToSlide index s)).

(** The gate of the auto-play [useEffect] (line 99): an interval that
    calls [nextSlide] exists only while this holds. *)
Definition autoPlayActive (s : state) : bool :=
  negb (isPaused s) && negb (showModal s) && (L >? 1)
  && negb (isTransitioning s).

Definition autoPlayTick (s : state) : state :=
  if autoPlayActive s then nextSlide s else s.

(** Arrows, indicators and edge zones are rendered only for [L > 1]. *)
Definition controlsShown : bool := L >? 1.

End WithMovies.

(** A carousel at rest on slide [i]. *)
Definition resting (i prev : Z) (d : direction) : state :=
  {| currentIndex := i; prevIndex := prev; isTransitioning := false;
     slideDirection := d; isPaused := false; showModal := false;
     timers := [] |}.

End Banner.

(** ** Navbar (second component of MovieRow.tsx): search overlay *)

Module Navbar.

(** [SearchResult] of utils/tmdb carries the same properties the handlers
    read from a catalog item. *)
Abbreviation SearchResult := Movie.

(** *** [String.prototype.trim]

    [trim] strips the ECMAScript WhiteSpace and LineTerminator code
    points from both ends.  All of them lie in the basic plane, so each
    is a single code unit: TAB, LF, VT, FF, CR (U+0009-U+000D), the
    Unicode space separators (U+0020, U+00A0, U+1680, U+2000-U+200A,
    U+202F, U+205F, U+3000), the line and paragraph separators (U+2028,
    U+2029) and the byte order mark (U+FEFF).  (U+180E has not been a
    space separator since Unicode 6.3.) *)
Definition is_space (c : N) : bool :=
  (((0x0009 <=? c) && (c <=? 0x000D))
   || (c =? 0x0020) || (c =? 0x00A0) || (c =? 0x1680)
   || ((0x2000 <=? c) && (c <=? 0x200A))
   || (c =? 0x2028) || (c =? 0x2029) || (c =? 0x202F)
   || (c =? 0x205F) || (c =? 0x3000) || (c =? 0xFEFF))%N.

Fixpoint trim_start (s : utf16) : utf16 :=
  match s with
  | [] => []
  | c :: rest => if is_space c then trim_start rest else s
  end.

Definition trim (s : utf16) : utf16 :=
  rev (trim_start (rev (trim_start s))).

(** [searchQuery.trim().length > 2] *)
Definition searchable (q : utf16) : bool :=
  (2 <? List.length (trim q))%nat.

(** The debounce delay of the [setTimeout] at line 320, in ms. *)
Definition debounce_ms : nat := 500.

Record state := {
  showSearch : bool;
  searchQuery : utf16;
  searchResults : list SearchResult;
  isSearching : bool;
  selectedMovie : option Movie;
  (** the pending debounce timeout: the query its closure captured and
      the milliseconds left before it fires *)
  searchTimeout : option (utf16 * nat);
  (** arguments of the [searchTMDB] calls issued so far, oldest first *)
  calls : list utf16;
  (** first argument of each [console.error], oldest first *)
  errors : list string
}.

Definition set_showSearch (b : bool) (s : state) : state :=
  {| showSearch := b; searchQuery := searchQuery s;
     searchResults := searchResults s; isSearching := isSearching s;
     selectedMovie := selectedMovie s; searchTimeout := searchTimeout s;
     calls := calls s; errors := errors s |}.

Definition set_searchResults (rs : list SearchResult) (s : state) : state :=
  {| showSearch := showSearch s; searchQuery := searchQuery s;
     searchResults := rs; isSearching := isSearching s;
     selectedMovie := selectedMovie s; searchTimeout := searchTimeout s;
     calls := calls s; errors := errors s |}.

Definition set_isSearching (b : bool) (s : state) : state :=
  {| showSearch := showSearch s; searchQuery := searchQuery s;
     searchResults := searchResults s; isSearching := b;
     selectedMovie := selectedMovie s; searchTimeout := searchTimeout s;
     calls := calls s; errors := errors s |}.

Definition set_selectedMovie (m : option Movie) (s : state) : state :=
  {| showSearch := showSearch s; searchQuery := searchQuery s;
     searchResults := searchResults s; isSearching := isSearching s;
     selectedMovie := m; searchTimeout := searchTimeout s;
     calls := calls s; errors := errors s |}.

Definition set_searchTimeout (t : option (utf16 * nat)) (s : state) : state :=
  {| showSearch := showSearch s; searchQuery := searchQuery s;
     searchResults := searchResults s; isSearching := isSearching s;
     selectedMovie := selectedMovie s; searchTimeout := t;
     calls := calls s; errors := errors s |}.

Definition call_searchTMDB (q : utf16) (s : state) : state :=
  {| showSearch := showSearch s; searchQuery := searchQuery s;
     searchResults := searchResults s; isSearching := isSearching s;
     selectedMovie := selectedMovie s; searchTimeout := searchTimeout s;
     calls := calls s ++ [q]; errors := errors s |}.

Definition console_error (msg : string) (s : state) : state :=
  {| showSearch := showSearch s; searchQuery := searchQuery s;
     searchResults := searchResults s; isSearching := isSearching s;
     selectedMovie := selectedMovie s; searchTimeout := searchTimeout s;
     calls := calls s; errors := errors s ++ [msg] |}.

(** [setSearchQuery(q)]: an unchanged value causes no render; a changed
    one re-runs the debounce [useEffect] (lines 304-323), whose cleanup
    clears the pending timeout before a new one is set. *)
Definition setSearchQuery (q : utf16) (s : state) : state :=
  if utf16_eqb q (searchQuery s) then s
  else
    {| showSearch := showSearch s; searchQuery := q;
       searchResults := searchResults s; isSearching := isSearching s;
       selectedMovie := selectedMovie s;
       searchTimeout := Some (q, debounce_ms);
       calls := calls s; errors := errors s |}.

(** [useState] initial values, after the effects of the first render. *)
Definition mounted : state :=
  {| showSearch := false; searchQuery := []; searchResults := [];
     isSearching := false; selectedMovie := None;
     searchTimeout := Some ([], debounce_ms);
     calls := []; errors := [] |}.

(** The input's [onChange]. *)
Definition onChange (q : utf16) (s : state) : state := setSearchQuery q s.

(** The timeout callback, up to its [await]. *)
Definition timeoutCallback (q : utf16) (s : state) : state :=
  if searchable q then call_searchTMDB q (set_isSearching true s)
  else set_searchResults [] s.

(** What follows a [searchTMDB] call once it settles: the results are
    stored, or the failure is logged under [label] and the list emptied;
    [isSearching] is reset either way. *)
Definition settled (label : string) (r : promise (list SearchResult))
    (s : state) : state :=
  match r with
  | Resolves results => set_isSearching false (set_searchResults results s)
  | Rejects =>
      set_isSearching false (set_searchResults [] (console_error label s))
  end.

(** The continuation of [await searchTMDB(...)] in the timeout callback
    (lines 309-316). *)
Definition searchSettled : promise (list SearchResult) -> state -> state :=
  settled "Search error:".

(** The [then]/[catch]/[finally] chain of [handleSearch] (lines 330-339). *)
Definition submitSettled : promise (list SearchResult) -> state -> state :=
  settled "Error during search:".

(** [ms] milliseconds pass: the pending timeout fires once it is due. *)
Definition elapse (ms : nat) (s : state) : state :=
  match searchTimeout s with
  | None => s
  | Some (q, remaining) =>
      if (remaining <=? ms)%nat
      then timeoutCallback q (set_searchTimeout None s)
      else set_searchTimeout (Some (q, (remaining - ms)%nat)) s
  end.

(** [handleSearch]: the form's submit. *)
Definition handleSearch (s : state) : state :=
  if searchable (searchQuery s)
  then call_searchTMDB (searchQuery s) (set_isSearching true s)
  else s.

(** Close button, Escape and outside click. *)
Definition dismiss (s : state) : state :=
  set_searchResults [] (setSearchQuery [] (set_showSearch false s)).

(** The results panel is rendered under this condition (line 466). *)
Definition panelShown (s : state) : bool :=
  showSearch s && searchable (searchQuery s).

(** *** Runs of the overlay *)

Inductive event :=
| Keystroke (q : utf16)                      (* onChange with value q *)
| Wait (ms : nat)
| Submit
| Settled (r : promise (list SearchResult))  (* a debounced search settles *)
| SubmitSettled (r : promise (list SearchResult)). (* a submitted one does *)

Definition step (s : state) (e : event) : state :=
  match e with
  | Keystroke q => onChange q s
  | Wait ms => elapse ms s
  | Submit => handleSearch s
  | Settled r => searchSettled r s
  | SubmitSettled r => submitSettled r s
  end.

Definition run (s : state) (es : list event) : state := fold_left step es s.

(** A typing session: each keystroke comes [gap] ms after the previous
    event and leaves the input holding [q]. *)
Fixpoint typing (ks : list (nat * utf16)) : list event :=
  match ks with
  | [] => []
  | (gap, q) :: rest => Wait gap :: Keystroke q :: typing rest
  end.

(** The session ends with [quiet] ms without input. *)
Definition session (ks : list (nat * utf16)) (quiet : nat) : list event :=
  typing ks ++ [Wait quiet].

(** The value the input holds after the session. *)
Definition final_query (s : state) (ks : list (nat * utf16)) : utf16 :=
  List.last (map snd ks) (searchQuery s).

(** Every keystroke changes the text and follows the previous one by less
    than the debounce delay; the first may come at any time. *)
Fixpoint rapid_from (prev : utf16) (ks : list (nat * utf16)) : bool :=
  match ks with
  | [] => true
  | (gap, q) :: rest =>
      (gap <? debounce_ms)%nat && negb (utf16_eqb q prev) && rapid_from q rest
  end.

Definition rapid (start : utf16) (ks : list (nat * utf16)) : bool :=
  match ks with
  | [] => true
  | (_, q) :: rest => negb (utf16_eqb q start) && rapid_from q rest
  end.

(** No search is pending: there is no timeout, or the one there holds a
    query too short to be searched. *)
Definition idle (s : state) : bool :=
  match searchTimeout s with
  | Some (q, _) => negb (searchable q)
  | None => true
  end.

(** *** [handleMovieClick] (lines 343-393) *)

(** [result.media_type || (result.title ? 'movie' : 'tv')] *)
Definition mediaTypeOf (result : SearchResult) : string :=
  match media_type result with
  | val t => if truthy t then t
             else if truthy (title result) then "movie" else "tv"
  | _ => if truthy (title result) then "movie" else "tv"
  end.

(** The three statements that close the search UI. *)
Definition closeSearchUI (s : state) : state :=
  set_searchResults [] (setSearchQuery [] (set_showSearch false s)).

Definition caught (s : state) : state :=
  console_error "Error fetching complete movie/TV details:" s.


(** The handler, given what the awaited calls yield: [tv] for the
    [fetch] of the series endpoint, [mv] for [fetchMovieDetails].  It
    touches no state before its [await]s, so all of it runs on [s], the
    state at the time the calls have settled. *)
Definition handleMovieClick (result : SearchResult)
    (tv : promise Response) (mv : promise (option Movie)) (s : state) : state :=
  if String.eqb (mediaTypeOf result) "tv" then
    match tv with
    | Rejects => caught s
    | Resolves response =>
        if negb (ok response) then caught s
        else
          match json response with
          | Rejects | Resolves None => caught s
          | Resolves (Some details) =>
              closeSearchUI (set_selectedMovie (Some (mapTV details)) s)
          end
    end
  else
    match mv with
    | Rejects => caught s
    | Resolves details =>
        match details with
        | Some d =>
            if truthy (id d)
            then closeSearchUI (set_selectedMovie (Some d) s)
            else closeSearchUI (console_error "Failed to get complete details for" s)
        | None =>
            closeSearchUI (console_error "Failed to get complete details for" s)
        end
    end.

End Navbar.

(** ** MovieModal.tsx: the details view and its embedded player *)

Module MovieModal.

Record state := {
  showPlayer : bool;
  isTV : bool;
  selectedSeason : Z;
  selectedEpisode : Z;
  totalSeasons : Z;
  (** [{ [key: number]: number }] *)
  episodesPerSeason : gmap Z Z
}.

(** [useState] initial values. *)
Definition initial : state :=
  {| showPlayer := false; isTV := false; selectedSeason := 1;
     selectedEpisode := 1; totalSeasons := 1; episodesPerSeason := ∅ |}.

(** The classification at lines 26-29. *)
Definition isTVShow (movie : Movie) : bool :=
  defined (number_of_seasons movie)
  || defined (first_air_date movie)
  || is_string (media_type movie) "tv"
  || defined (name movie).

(** One iteration of the [forEach] at lines 38-42; in
    [season.season_number > 0], [undefined] and [null] compare false. *)
Definition recordSeason (episodeCount : gmap Z Z) (season : Season) : gmap Z Z :=
  match season_number season with
  | val n =>
      if n >? 0 then <[n := or_default (episode_count season) 10]> episodeCount
      else episodeCount
  | _ => episodeCount
  end.

(** The object [episodeCount] built at lines 36-43. *)
Definition buildEpisodeCount (movie : Movie) : gmap Z Z :=
  match seasons movie with
  | val l => fold_left recordSeason l ∅
  | _ => ∅
  end.

(** The entry of the seasons list that the object ends up holding for
    season [k]: the last one numbered [k], for [k > 0]. *)
Definition season_entry (l : list Season) (k : Z) : option Season :=
  List.find (fun season =>
               match season_number season with
               | val n => (n >? 0) && (n =? k)
               | _ => false
               end) (rev l).

(** The [useEffect] on [movie] (lines 21-46). *)
Definition movieEffect (movie : Movie) (st : state) : state :=
  let isTVShow := isTVShow movie in
  if isTVShow && truthy (number_of_seasons movie) then
    {| showPlayer := false; isTV := isTVShow;
       selectedSeason := selectedSeason st;
       selectedEpisode := selectedEpisode st;
       totalSeasons :=
         match number_of_seasons movie with
         | val n => n
         | _ => totalSeasons st
         end;
       episodesPerSeason := buildEpisodeCount movie |}
  else
    {| showPlayer := false; isTV := isTVShow;
       selectedSeason := selectedSeason st;
       selectedEpisode := selectedEpisode st;
       totalSeasons := totalSeasons st;
       episodesPerSeason := episodesPerSeason st |}.

(** The modal as first rendered for [movie]. *)
Definition opened (movie : Movie) : state := movieEffect movie initial.

(** [for (let i = 1; i <= n; i++)] collecting [i]. *)
Definition upto (n : Z) : list Z := map Z.of_nat (seq 1 (Z.to_nat n)).

(** The values of the [<option>]s of the season selector (lines 82-89). *)
Definition seasonOptions (st : state) : list Z := upto (totalSeasons st).

(** [episodesPerSeason[selectedSeason] || 10] (line 93). *)
Definition episodeCount (st : state) : Z :=
  match episodesPerSeason st !! selectedSeason st with
  | Some c => if truthy c then c else 10
  | None => 10
  end.

(** The values of the [<option>]s of the episode selector (lines 92-100). *)
Definition episodeOptions (st : state) : list Z := upto (episodeCount st).

(** [onChange] of the season selector (lines 123-127). *)
Definition changeSeason (newSeason : Z) (st : state) : state :=
  {| showPlayer := showPlayer st; isTV := isTV st;
     selectedSeason := newSeason; selectedEpisode := 1;
     totalSeasons := totalSeasons st;
     episodesPerSeason := episodesPerSeason st |}.

(** [onChange] of the episode selector (line 136). *)
Definition changeEpisode (newEpisode : Z) (st : state) : state :=
  {| showPlayer := showPlayer st; isTV := isTV st;
     selectedSeason := selectedSeason st; selectedEpisode := newEpisode;
     totalSeasons := totalSeasons st;
     episodesPerSeason := episodesPerSeason st |}.

(** *** [getEmbedUrl] (lines 62-79) *)

Definition embed_tv_imdb (imdbId : string) (season episode : Z) : string :=
  "https://vidsrc.in/embed/tv?imdb=" +:+ imdbId +:+ "&season=" +:+ show season
  +:+ "&episode=" +:+ show episode.

Definition embed_tv_tmdb (tmdbId season episode : Z) : string :=
  "https://vidsrc.in/embed/tv?tmdb=" +:+ show tmdbId +:+ "&season="
  +:+ show season +:+ "&episode=" +:+ show episode.

Definition embed_movie (tmdbId : Z) : string :=
  "https://vidsrc.in/embed/movie/" +:+ show tmdbId.

(** [movie.external_ids?.imdb_id] *)
Definition nested_imdb_id (movie : Movie) : field string :=
  match external_ids movie with
  | val e => ext_imdb_id e
  | _ => undefined
  end.

(** [movie.external_ids?.imdb_id || movie.imdb_id] (line 68) *)
Definition resolveImdbId (movie : Movie) : field string :=
  or_else (nested_imdb_id movie) (imdb_id movie).

Definition fallback_warning : string :=
  "No IMDb ID found for TV show, using TMDB ID as fallback".

(** The URL handed to the frame, with the [console.warn] messages the
    call emits. *)
Definition getEmbedUrl (movie : Movie) (st : state) : string * list string :=
  match id movie with
  | val n =>
      if negb (truthy n) then (""%string, [])
      else if isTV st then
        match resolveImdbId movie with
        | val imdbId =>
            if truthy imdbId
            then (embed_tv_imdb imdbId (selectedSeason st) (selectedEpisode st), [])
            else (embed_tv_tmdb n (selectedSeason st) (selectedEpisode st),
                  [fallback_warning])
        | _ => (embed_tv_tmdb n (selectedSeason st) (selectedEpisode st),
                [fallback_warning])
        end
      else (embed_movie n, [])
  | _ => (""%string, [])
  end.

(** *** The claims' wording, for comparison with the code *)

(** Classification as §4.3 of the spec words it: the [name] test also
    asks for [title] to be absent. *)
Definition claimed_isSeries (movie : Movie) : bool :=
  defined (number_of_seasons movie)
  || defined (first_air_date movie)
  || is_string (media_type movie) "tv"
  || (defined (name movie) && negb (defined (title movie))).



End MovieModal.

(** ** MovieRow.tsx: a category row *)

Module MovieRow.

(** What the row hands to a [MovieCard]. *)
Record card := {
  card_movie : Movie;
  card_mediaType : string
}.

(** The rendered row: nothing at all, or the container with its title
    heading and, once the row has been seen by the intersection observer,
    the strip of cards. *)
Inductive view :=
| Nothing                                       (* return null *)
| Row (heading : string) (strip : option (list card)).

(** [movie.media_type || rowType || (movie.name && !movie.title ? 'tv' : 'movie')] *)
Definition mediaTypeOf (rowType : option string) (movie : Movie) : string :=
  let inferred : string :=
    if truthy (name movie) && negb (truthy (title movie)) then "tv" else "movie" in
  let fromRow : string :=
    match rowType with
    | Some t => if truthy t then t else inferred
    | None => inferred
    end in
  match media_type movie with
  | val t => if truthy t then t else fromRow
  | _ => fromRow
  end.

(** [movies.filter(movie => movie && movie.poster_path)]; the elements
    are objects by the declared type [Movie[]], so the first conjunct
    always passes. *)
Definition validMovies (movies : list Movie) : list Movie :=
  List.filter (fun movie => truthy (poster_path movie)) movies.

(** The component's render (lines 83-232); [movies] defaults to [[]]. *)
Definition render (heading : string) (movies : list Movie)
    (rowType : option string) (isRowVisible : bool) : view :=
  match movies with
  | [] => Nothing
  | _ =>
      match validMovies movies with
      | [] => Nothing
      | valid =>
          Row heading
            (if isRowVisible
             then Some (map (fun movie =>
                               {| card_movie := movie;
                                  card_mediaType := mediaTypeOf rowType movie |})
                          valid)
             else None)
      end
  end.

(** The items a view shows. *)
Definition shown (v : view) : list Movie :=
  match v with
  | Row _ (Some cards) => map card_movie cards
  | _ => []
  end.

End MovieRow.

(** ** App.tsx: the root composition *)

Module App.

(** The eight category lists, one [useState] each. *)
Record catalog := {
  popularMovies : list Movie;
  topRatedMovies : list Movie;
  upcomingMovies : list Movie;
  nowPlayingMovies : list Movie;
  popularTV : list Movie;
  topRatedTV : list Movie;
  trendingMovies : list Movie;
  trendingTV : list Movie
}.

Definition empty_catalog : catalog :=
  {| popularMovies := []; topRatedMovies := []; upcomingMovies := [];
     nowPlayingMovies := []; popularTV := []; topRatedTV := [];
     trendingMovies := []; trendingTV := [] |}.

Record state := {
  lists : catalog;
  selectedMovie : option Movie;
  isLoading : bool;
  error : option string;          (* string | null *)
  (** first argument of each [console.error], oldest first *)
  errors : list string
}.

(** [useState] initial values. *)
Definition initial : state :=
  {| lists := empty_catalog; selectedMovie := None; isLoading := true;
     error := None; errors := [] |}.

Definition set_lists (c : catalog) (s : state) : state :=
  {| lists := c; selectedMovie := selectedMovie s; isLoading := isLoading s;
     error := error s; errors := errors s |}.

Definition set_selectedMovie (m : option Movie) (s : state) : state :=
  {| lists := lists s; selectedMovie := m; isLoading := isLoading s;
     error := error s; errors := errors s |}.

Definition set_isLoading (b : bool) (s : state) : state :=
  {| lists := lists s; selectedMovie := selectedMovie s; isLoading := b;
     error := error s; errors := errors s |}.

Definition set_error (e : option string) (s : state) : state :=
  {| lists := lists s; selectedMovie := selectedMovie s;
     isLoading := isLoading s; error := e; errors := errors s |}.

Definition console_error (msg : string) (s : state) : state :=
  {| lists := lists s; selectedMovie := selectedMovie s;
     isLoading := isLoading s; error := error s;
     errors := errors s ++ [msg] |}.

(** *** Startup fetch (lines 22-69) *)

(** What each of the eight [fetchMovies] calls yields. *)
Record fetches := {
  movie_popular : promise (field (list Movie));
  movie_top_rated : promise (field (list Movie));
  movie_upcoming : promise (field (list Movie));
  movie_now_playing : promise (field (list Movie));
  tv_popular : promise (field (list Movie));
  tv_top_rated : promise (field (list Movie));
  trending_movie_week : promise (field (list Movie));
  trending_tv_week : promise (field (list Movie))
}.

(** The array literal given to [Promise.all]. *)
Definition requests (f : fetches) : list (promise (field (list Movie))) :=
  [movie_popular f; movie_top_rated f; movie_upcoming f; movie_now_playing f;
   tv_popular f; tv_top_rated f; trending_movie_week f; trending_tv_week f].

(** [Promise.all]: resolved with all values, or rejected if one is. *)
Fixpoint Promise_all {A} (ps : list (promise A)) : promise (list A) :=
  match ps with
  | [] => Resolves []
  | Rejects :: _ => Rejects
  | Resolves a :: rest =>
      match Promise_all rest with
      | Resolves l => Resolves (a :: l)
      | Rejects => Rejects
      end
  end.

(** The [i]-th name of the array destructuring, then [x || []]. *)
Definition category (values : list (field (list Movie))) (i : nat) : list Movie :=
  or_default (nth i values undefined) [].

Definition load_failure : string :=
  "Failed to load content. Please try again later.".

Definition fetchData (f : fetches) (s : state) : state :=
  let s1 := set_error None (set_isLoading true s) in
  let s2 :=
    match Promise_all (requests f) with
    | Resolves values =>
        set_lists
          {| popularMovies := category values 0;
             topRatedMovies := category values 1;
             upcomingMovies := category values 2;
             nowPlayingMovies := category values 3;
             popularTV := category values 4;
             topRatedTV := category values 5;
             trendingMovies := category values 6;
             trendingTV := category values 7 |} s1
    | Rejects =>
        set_error (Some load_failure)
          (console_error "Error fetching movies:" s1)
    end in
  set_isLoading false s2.

(** *** Rendering (lines 118-289) *)

(** The banner set is drawn by a random shuffle and is left out of the
    view; everything else the root renders is here. *)
Inductive view :=
| Loading
| ErrorPanel (message : string)      (* the message and the Retry button *)
| Content (featured : list Movie) (rows : list MovieRow.view)
    (modal : option Movie).

(** [seen heading] tells whether the row's observer has fired. *)
Definition render (seen : string -> bool) (s : state) : view :=
  let row heading movies rowType :=
    MovieRow.render heading movies (Some rowType) (seen heading) in
  let content :=
    Content (firstn 6 (popularMovies (lists s)))
      [row "Popular Right Now"%string (popularMovies (lists s)) "movie"%string;
       row "Top Rated Of All Time"%string (topRatedMovies (lists s)) "movie"%string;
       row "Coming Soon"%string (upcomingMovies (lists s)) "movie"%string;
       row "Now Playing In Theaters"%string (nowPlayingMovies (lists s)) "movie"%string;
       row "Popular This Week"%string (popularTV (lists s)) "tv"%string;
       row "All-Time Favorites"%string (topRatedTV (lists s)) "tv"%string;
       row "Movies"%string (trendingMovies (lists s)) "movie"%string;
       row "TV Shows"%string (trendingTV (lists s)) "tv"%string]
      (selectedMovie s) in
  if isLoading s then Loading
  else
    match error s with
    | Some message => if truthy message then ErrorPanel message else content
    | None => content
    end.

(** The category items a view shows, over all rows and the featured grid. *)
Definition items_shown (v : view) : list Movie :=
  match v with
  | Content featured rows _ => featured ++ List.concat (map MovieRow.shown rows)
  | _ => []
  end.

(** *** [handleMovieClick] (lines 71-116) *)

(** The body of the [try] after [setSelectedMovie(null)]: the details to
    select, or [None] when an exception is thrown. *)
Definition hydrate (mediaType : option string)
    (tv : promise Response) (mv : promise (option Movie)) : option Movie :=
  let isTV := match mediaType with Some t => String.eqb t "tv" | None => false end in
  movieDetails ←
    (if isTV then
       match tv with
       | Rejects => None
       | Resolves response =>
           if negb (ok response) then None
           else
             match json response with
             | Rejects | Resolves None => None
             | Resolves (Some details) => Some (mapTV details)
             end
       end
     else
       match mv with
       | Rejects => None
       | Resolves details => details
       end);
  if negb (truthy (id movieDetails)) then None else Some movieDetails.

(** The handler is an [async] function: it runs up to its first [await]
    at the click, and the rest runs when the awaited calls have settled,
    on whatever the state is by then. *)

(** At the click: [setSelectedMovie(null)] (line 73). *)
Definition clickStart (s : state) : state := set_selectedMovie None s.

(** When the awaited calls have settled: the details are selected, or
    the [catch] logs the failure; [tv] is what the [fetch] of the series
    endpoint yields, [mv] what [fetchMovieDetails] does. *)
Definition clickSettle (mediaType : option string)
    (tv : promise Response) (mv : promise (option Movie)) (s : state) : state :=
  match hydrate mediaType tv mv with
  | Some movieDetails => set_selectedMovie (Some movieDetails) s
  | None => console_error "Error fetching content details:" s
  end.

(** The handler run to completion with nothing happening in between. *)
Definition handleMovieClick (movieId : Z) (mediaType : option string)
    (tv : promise Response) (mv : promise (option Movie)) (s : state) : state :=
  clickSettle mediaType tv mv (clickStart s).

(** *** Runs of the root view

    The details view covers the whole page ([fixed inset-0 z-50],
    MovieModal.tsx line 110) and the cards cannot be reached from the
    keyboard, so a card is clicked only while no item is selected.  The
    calls of several clicks may be pending at once and settle in any
    order. *)
Inductive event :=
| Clicked                                    (* a card or a featured tile *)
| Settled (mediaType : option string)
    (tv : promise Response) (mv : promise (option Movie))
| Closed.                                    (* the modal's onClose *)

Definition step (s : state) (e : event) : state :=
  match e with
  | Clicked =>
      match selectedMovie s with
      | None => clickStart s
      | Some _ => s
      end
  | Settled mediaType tv mv => clickSettle mediaType tv mv s
  | Closed => set_selectedMovie None s
  end.

Definition run (s : state) (es : list event) : state := fold_left step es s.

End App.

(** ** Sample data used by the concrete runs of Part II *)

Module Samples.

(** A movie as a listing returns it. *)
Definition batman : Movie :=
  {| id := val 268; title := val "Batman"%string; name := undefined;
     media_type := val "movie"%string;
     poster_path := val "/batman.jpg"%string;
     backdrop_path := val "/batman-wide.jpg"%string;
     first_air_date := undefined; number_of_seasons := undefined;
     seasons := undefined; imdb_id := undefined; external_ids := undefined |}.

(** A search overlay showing the results of an earlier query. *)
Definition overlay_with_results : Navbar.state :=
  {| Navbar.showSearch := true; Navbar.searchQuery := units "bat";
     Navbar.searchResults := [batman]; Navbar.isSearching := false;
     Navbar.selectedMovie := None; Navbar.searchTimeout := None;
     Navbar.calls := [units "bat"]; Navbar.errors := [] |}.

(** An object that carries both title fields and no other marker. *)
Definition both_titles : Movie :=
  {| id := val 11; title := val "Star Wars"%string;
     name := val "Star Wars"%string;
     media_type := undefined; poster_path := undefined;
     backdrop_path := undefined; first_air_date := undefined;
     number_of_seasons := undefined; seasons := undefined;
     imdb_id := undefined; external_ids := undefined |}.

(** A series whose two IMDb identifiers differ. *)
Definition two_imdb_ids : Movie :=
  {| id := val 1399; title := undefined;
     name := val "Game of Thrones"%string;
     media_type := val "tv"%string; poster_path := undefined;
     backdrop_path := undefined;
     first_air_date := val "2011-04-17"%string;
     number_of_seasons := val 8; seasons := undefined;
     imdb_id := val "tt0000001"%string;
     external_ids := val {| ext_imdb_id := val "tt0944947"%string |} |}.

(** The series of §8 of the spec: three seasons, counts known for two;
    a specials entry is added to show that it is skipped. *)
Definition three_seasons : Movie :=
  {| id := val 42; title := undefined; name := val "Show"%string;
     media_type := undefined; poster_path := undefined;
     backdrop_path := undefined; first_air_date := undefined;
     number_of_seasons := val 3;
     seasons :=
       val [ {| season_number := val 0; episode_count := val 4 |};
             {| season_number := val 1; episode_count := val 8 |};
             {| season_number := val 2; episode_count := val 10 |} ];
     imdb_id := undefined; external_ids := undefined |}.

(** A series whose second season is announced with no episode yet. *)
Definition announced_season : Movie :=
  {| id := val 43; title := undefined; name := val "Show"%string;
     media_type := undefined; poster_path := undefined;
     backdrop_path := undefined; first_air_date := undefined;
     number_of_seasons := val 2;
     seasons :=
       val [ {| season_number := val 1; episode_count := val 8 |};
             {| season_number := val 2; episode_count := val 0 |} ];
     imdb_id := undefined; external_ids := undefined |}.




(** A listing entry without a poster. *)
Definition no_poster : Movie :=
  {| id := val 7; title := val "Lost Film"%string; name := undefined;
     media_type := undefined; poster_path := null;
     backdrop_path := undefined; first_air_date := undefined;
     number_of_seasons := undefined; seasons := undefined;
     imdb_id := undefined; external_ids := undefined |}.

(** Eight listings that all come back empty. *)
Definition empty_listings : App.fetches :=
  {| App.movie_popular := Resolves (val []);
     App.movie_top_rated := Resolves (val []);
     App.movie_upcoming := Resolves (val []);
     App.movie_now_playing := Resolves (val []);
     App.tv_popular := Resolves (val []);
     App.tv_top_rated := Resolves (val []);
     App.trending_movie_week := Resolves (val []);
     App.trending_tv_week := Resolves (val []) |}.

End Samples.

(** ** Banner.tsx: pointer and modal handlers, runs of the carousel *)

Module BannerUI.

Import Banner.

Definition set_isPaused (b : bool) (s : state) : state :=
  {| currentIndex := currentIndex s; prevIndex := prevIndex s;
     isTransitioning := isTransitioning s;
     slideDirection := slideDirection s; isPaused := b;
     showModal := showModal s; timers := timers s |}.

Definition set_showModal (b : bool) (s : state) : state :=
  {| currentIndex := currentIndex s; prevIndex := prevIndex s;
     isTransitioning := isTransitioning s;
     slideDirection := slideDirection s; isPaused := isPaused s;
     showModal := b; timers := timers s |}.

(** [handlePlayClick] and [handleInfoClick] (lines 131-143) have the same
    body. *)
Definition handlePlayClick (s : state) : state :=
  set_isPaused true (set_showModal true s).

Definition handleInfoClick (s : state) : state :=
  set_isPaused true (set_showModal true s).

(** [handleCloseModal] (lines 145-151); [hovering] tells whether
    [document.querySelector('.group:hover')] finds an element. *)
Definition handleCloseModal (hovering : bool) (s : state) : state :=
  let s1 := set_showModal false s in
  if negb hovering then set_isPaused false s1 else s1.

(** Lines 154-155. *)
Definition handleMouseEnter (s : state) : state := set_isPaused true s.
Definition handleMouseLeave (s : state) : state := set_isPaused false s.

(** What can happen to a mounted carousel.  The arrows, the edge zones and
    the indicators exist only when [controlsShown]; there is one indicator
    per index of [movies]; the modal can be closed only while it is
    open. *)
Inductive event :=
| NextArrow
| PrevArrow
| Indicator (index : Z)
| Timeout                    (* the oldest pending setTimeout fires *)
| IntervalTick               (* the auto-play setInterval fires *)
| MouseEnter
| MouseLeave
| PlayClick
| InfoClick
| CloseModal (hovering : bool).

Definition step (L : Z) (s : state) (e : event) : state :=
  match e with
  | NextArrow => if controlsShown L then nextSlide L s else s
  | PrevArrow => if controlsShown L then prevSlide L s else s
  | Indicator index =>
      if controlsShown L && (0 <=? index) && (index <? L)
      then goToSlide L index s else s
  | Timeout => fire L s
  | IntervalTick => autoPlayTick L s
  | MouseEnter => handleMouseEnter s
  | MouseLeave => handleMouseLeave s
  | PlayClick => handlePlayClick s
  | InfoClick => handleInfoClick s
  | CloseModal hovering => if showModal s then handleCloseModal hovering s else s
  end.

Definition run (L : Z) (s : state) (es : list event) : state :=
  fold_left (step L) es s.

(** Events that need no click on the carousel's own controls. *)
Definition passive (e : event) : bool :=
  match e with
  | Timeout | IntervalTick | MouseEnter | MouseLeave => true
  | _ => false
  end.

(** A pending timeout that will leave the index inside the banner set. *)
Definition valid_timer (L : Z) (t : timer) : Prop :=
  match t with
  | Tshift (Ugoto index) => 0 <= index < L
  | _ => True
  end.

(** The carousel is at rest: no transition in progress, no timeout. *)
Definition at_rest (s : state) : Prop :=
  isTransitioning s = false /\ timers s = [].

(** Both indices address an item, and the transitioning flag is up
    exactly while one timeout of a transition is pending. *)
Definition well_formed (L : Z) (s : state) : Prop :=
  0 <= currentIndex s < L /\
  0 <= prevIndex s < L /\
  (at_rest s \/
   (isTransitioning s = true /\
    exists t, timers s = [t] /\ valid_timer L t)).

(** [n] calls of [advance], each from rest. *)
Definition advances (L : Z) (n : nat) (s : state) : state :=
  Nat.iter n (advance L) s.

End BannerUI.

(** ** App.tsx: the banner set and the startup lists *)

Module AppUI.

Import App.

(** What a settled [fetchMovies] promise contributes to its list. *)
Definition listed (p : promise (field (list Movie))) : list Movie :=
  match p with
  | Resolves v => or_default v []
  | Rejects => []
  end.

(** [m.id === movie.id] *)
Definition same_id (movie m : Movie) : bool :=
  match id m, id movie with
  | undefined, undefined => true
  | null, null => true
  | val a, val b => a =? b
  | _, _ => false
  end.

(** [Array.prototype.findIndex]: the first index that passes, or -1. *)
Fixpoint findIndex {A} (p : A -> bool) (l : list A) : Z :=
  match l with
  | [] => -1
  | x :: rest =>
      if p x then 0
      else let k := findIndex p rest in
           if k <? 0 then -1 else k + 1
  end.

(** [Array.prototype.filter] with the callback's index argument. *)
Fixpoint filter_from {A} (p : A -> Z -> bool) (index : Z) (l : list A) : list A :=
  match l with
  | [] => []
  | x :: rest =>
      if p x index then x :: filter_from p (index + 1) rest
      else filter_from p (index + 1) rest
  end.

(** [.filter((movie, index, self) =>
       index === self.findIndex(m => m.id === movie.id))] *)
Definition uniqueById (self : list Movie) : list Movie :=
  filter_from (fun movie index => index =? findIndex (same_id movie) self) 0 self.

(** [.filter(movie => movie && movie.backdrop_path)] *)
Definition withBackdrop (l : list Movie) : list Movie :=
  List.filter (fun movie => truthy (backdrop_path movie)) l.

(** The chain applied to the shuffled and to the unshuffled candidates
    alike (lines 154-159 and 163-165). *)
Definition pick (l : list Movie) : list Movie :=
  firstn 5 (uniqueById (withBackdrop l)).

(** Lines 143-149. *)
Definition allPotentialBannerMovies (c : catalog) : list Movie :=
  firstn 3 (popularMovies c) ++ firstn 3 (trendingMovies c)
  ++ firstn 2 (topRatedMovies c) ++ firstn 2 (upcomingMovies c)
  ++ firstn 2 (nowPlayingMovies c).

(** Lines 152-165; [shuffle] stands for [.sort(() => 0.5 - Math.random())],
    which returns the elements of its array in some order. *)
Definition bannerMovies (shuffle : list Movie -> list Movie) (c : catalog) : list Movie :=
  let shuffledMovies := pick (shuffle (allPotentialBannerMovies c)) in
  if (0 <? List.length shuffledMovies)%nat then shuffledMovies
  else pick (allPotentialBannerMovies c).

(** [bannerMovies.length > 0 && <Banner ... />] (line 173). *)
Definition bannerMounted (shuffle : list Movie -> list Movie) (c : catalog) : bool :=
  (0 <? List.length (bannerMovies shuffle c))%nat.

End AppUI.

(** ** Navbar: every event of the search overlay *)

Module NavbarUI.

Import Navbar.

Inductive action :=
| OpenSearch                                   (* the magnifier button *)
| Typed (q : utf16)                            (* onChange *)
| Passed (ms : nat)                            (* time passes *)
| Submitted                                    (* handleSearch *)
| SearchDone (r : promise (list SearchResult)) (* a debounced search settles *)
| SubmitDone (r : promise (list SearchResult)) (* a submitted search settles *)
| Dismissed                                    (* close, Escape, outside click *)
| ResultClicked (result : SearchResult)
    (tv : promise Response) (mv : promise (option Movie))
| DetailsClosed.                               (* the modal's onClose *)

Definition act (s : state) (a : action) : state :=
  match a with
  | OpenSearch => set_showSearch true s
  | Typed q => onChange q s
  | Passed ms => elapse ms s
  | Submitted => handleSearch s
  | SearchDone r => searchSettled r s
  | SubmitDone r => submitSettled r s
  | Dismissed => dismiss s
  | ResultClicked result tv mv => handleMovieClick result tv mv s
  | DetailsClosed => set_selectedMovie None s
  end.

Definition play (s : state) (acts : list action) : state := fold_left act acts s.

(** The pending timeout, if any, was armed for the query the input holds
    now, and is due within the debounce delay. *)
Definition timer_current (s : state) : Prop :=
  match searchTimeout s with
  | Some (q, remaining) =>
      q = searchQuery s /\ (0 < remaining <= debounce_ms)%nat
  | None => True
  end.

(** Every call issued so far carried a query of trimmed length above 2. *)
Definition calls_searchable (s : state) : Prop :=
  Forall (fun q => searchable q = true) (calls s).

End NavbarUI.

(** ** MovieModal.tsx: what the selectors can hold *)

Module ModalUI.

Import MovieModal.

(** No entry of the seasons list carries a negative episode count. *)
Definition counts_nonnegative (movie : Movie) : Prop :=
  match seasons movie with
  | val l => Forall (fun season =>
                       match episode_count season with
                       | val c => 0 <= c
                       | _ => True
                       end) l
  | _ => True
  end.

End ModalUI.

(** ** More sample data, for the concrete runs of the second half of
    Part II *)

Module MoreSamples.

(** A film without a backdrop image. *)
Definition no_backdrop : Movie :=
  {| id := val 9; title := val "Old Reel"%string; name := undefined;
     media_type := undefined; poster_path := val "/reel.jpg"%string;
     backdrop_path := null; first_air_date := undefined;
     number_of_seasons := undefined; seasons := undefined;
     imdb_id := undefined; external_ids := undefined |}.

(** A catalog in which one film is both popular and trending. *)
Definition overlapping : App.catalog :=
  {| App.popularMovies := [Samples.batman; no_backdrop];
     App.topRatedMovies := []; App.upcomingMovies := [];
     App.nowPlayingMovies := []; App.popularTV := []; App.topRatedTV := [];
     App.trendingMovies := [Samples.batman]; App.trendingTV := [] |}.

(** A startup in which one endpoint answers with [null]. *)
Definition one_null_listing : App.fetches :=
  {| App.movie_popular := Resolves (val [Samples.batman]);
     App.movie_top_rated := Resolves (val []);
     App.movie_upcoming := Resolves (val []);
     App.movie_now_playing := Resolves (val []);
     App.tv_popular := Resolves null;
     App.tv_top_rated := Resolves (val [Samples.three_seasons]);
     App.trending_movie_week := Resolves (val []);
     App.trending_tv_week := Resolves (val []) |}.

(** A search result of a series, as the search endpoint lists it. *)
Definition series_result : Movie :=
  {| id := val 42; title := undefined; name := val "Show"%string;
     media_type := val "tv"%string; poster_path := undefined;
     backdrop_path := undefined; first_air_date := undefined;
     number_of_seasons := undefined; seasons := undefined;
     imdb_id := undefined; external_ids := undefined |}.

(** The modal on an eight-season series, season 5 and episode 7 chosen. *)
Definition deep_into_a_series : MovieModal.state :=
  MovieModal.changeEpisode 7
    (MovieModal.changeSeason 5 (MovieModal.opened Samples.two_imdb_ids)).

End MoreSamples.

(* ===================================================================== *)
(** * Part II: theorems                                                    *)
(* ===================================================================== *)

(** ** The carousel *)

Section BannerFacts.

Import Banner.

Variable L : Z.

Ltac split_comparisons :=
  repeat match goal with
         | |- context [Z.eqb ?a ?b] => destruct (Z.eqb_spec a b)
         | |- context [Z.gtb ?a ?b] =>
             rewrite (Z.gtb_ltb a b); destruct (Z.ltb_spec b a)
         | _ => progress cbn [andb orb negb]
         end.

(** The entry points' common part, from a carousel at rest: the flag is
    raised, the previous index recorded, the 200 ms timeout queued, and
    the effect runs on the still unchanged index. *)
Lemma begin_at_rest (u : update) i p d pa sm ts :
  begin_transition L u
    {| currentIndex := i; prevIndex := p; isTransitioning := false;
       slideDirection := d; isPaused := pa; showModal := sm; timers := ts |}
  = {| currentIndex := i; prevIndex := i; isTransitioning := true;
       slideDirection := direction_of L i i; isPaused := pa; showModal := sm;
       timers := ts ++ [Tshift u] |}.
Proof.
  unfold begin_transition, set_timers, set_prevIndex, set_isTransitioning.
  cbn [currentIndex prevIndex isTransitioning slideDirection isPaused
       showModal timers].
  unfold commit, same_deps.
  cbn [currentIndex prevIndex isTransitioning Bool.eqb].
  rewrite andb_false_r. reflexivity.
Qed.

(** The 200 ms timeout: the index moves, the 300 ms timeout is queued,
    and the effect runs again if the index changed. *)
Lemma fire_shift (u : update) i p d pa sm rest :
  fire L
    {| currentIndex := i; prevIndex := p; isTransitioning := true;
       slideDirection := d; isPaused := pa; showModal := sm;
       timers := Tshift u :: rest |}
  = {| currentIndex := apply_update L u i; prevIndex := p;
       isTransitioning := true;
       slideDirection :=
         if i =? apply_update L u i then d
         else direction_of L p (apply_update L u i);
       isPaused := pa; showModal := sm; timers := rest ++ [Tsettle] |}.
Proof.
  unfold fire, set_timers, set_currentIndex.
  cbn [currentIndex prevIndex isTransitioning slideDirection isPaused
       showModal timers].
  generalize (apply_update L u i). intros j.
  unfold commit, same_deps.
  cbn [currentIndex prevIndex isTransitioning Bool.eqb].
  rewrite Z.eqb_refl, andb_true_r.
  destruct (Z.eqb_spec i j); reflexivity.
Qed.

(** The 300 ms timeout: the flag clears; the effect runs and, the flag
    being down, leaves the direction alone. *)
Lemma fire_settle i p d pa sm rest :
  fire L
    {| currentIndex := i; prevIndex := p; isTransitioning := true;
       slideDirection := d; isPaused := pa; showModal := sm;
       timers := Tsettle :: rest |}
  = {| currentIndex := i; prevIndex := p; isTransitioning := false;
       slideDirection := d; isPaused := pa; showModal := sm;
       timers := rest |}.
Proof.
  unfold fire, set_timers, set_isTransitioning.
  cbn [currentIndex prevIndex isTransitioning slideDirection isPaused
       showModal timers].
  unfold commit, same_deps.
  cbn [currentIndex prevIndex isTransitioning Bool.eqb].
  rewrite andb_false_r. reflexivity.
Qed.

(** A whole transition from rest: the index is updated, the old index is
    the previous one, and the direction is the one the effect derives
    from the two. *)
Lemma transition_from_rest (u : update) (s : state) :
  isTransitioning s = false -> timers s = [] ->
  fire L (fire L (begin_transition L u s))
  = {| currentIndex := apply_update L u (currentIndex s);
       prevIndex := currentIndex s; isTransitioning := false;
       slideDirection :=
         direction_of L (currentIndex s) (apply_update L u (currentIndex s));
       isPaused := isPaused s; showModal := showModal s; timers := [] |}.
Proof.
  destruct s as [i p t d pa sm ts]; cbn; intros -> ->.
  rewrite begin_at_rest. cbn [app].
  rewrite fire_shift. cbn [app].
  rewrite fire_settle.
  destruct (Z.eqb_spec i (apply_update L u i)) as [E|E];
    [rewrite <- E|]; reflexivity.
Qed.

Lemma advance_from_rest (s : state) :
  isTransitioning s = false -> timers s = [] ->
  advance L s
  = {| currentIndex := apply_update L Unext (currentIndex s);
       prevIndex := currentIndex s; isTransitioning := false;
       slideDirection :=
         direction_of L (currentIndex s) (apply_update L Unext (currentIndex s));
       isPaused := isPaused s; showModal := showModal s; timers := [] |}.
Proof.
  intros Ht Hts. unfold advance, nextSlide. rewrite Ht.
  apply transition_from_rest; assumption.
Qed.

Lemma retreat_from_rest (s : state) :
  isTransitioning s = false -> timers s = [] ->
  retreat L s
  = {| currentIndex := apply_update L Uprev (currentIndex s);
       prevIndex := currentIndex s; isTransitioning := false;
       slideDirection :=
         direction_of L (currentIndex s) (apply_update L Uprev (currentIndex s));
       isPaused := isPaused s; showModal := showModal s; timers := [] |}.
Proof.
  intros Ht Hts. unfold retreat, prevSlide. rewrite Ht.
  apply transition_from_rest; assumption.
Qed.

(** After [advance] from a carousel at rest the index is the successor
    modulo the length. *)
Lemma advance_index (s : state) :
  0 < L -> 0 <= currentIndex s < L ->
  isTransitioning s = false -> timers s = [] ->
  currentIndex (advance L s) = (currentIndex s + 1) mod L.
Proof.
  intros HL Hi Ht Hts. rewrite advance_from_rest by assumption.
  cbn [currentIndex apply_update].
  destruct (Z.eqb_spec (currentIndex s) (L - 1)) as [->|Hne].
  - replace (L - 1 + 1) with (1 * L) by lia. symmetry. apply Z.mod_mul. lia.
  - symmetry. apply Z.mod_small. lia.
Qed.

(** After [retreat] the index is the predecessor modulo the length. *)
Lemma retreat_index (s : state) :
  0 < L -> 0 <= currentIndex s < L ->
  isTransitioning s = false -> timers s = [] ->
  currentIndex (retreat L s) = (currentIndex s - 1 + L) mod L.
Proof.
  intros HL Hi Ht Hts. rewrite retreat_from_rest by assumption.
  cbn [currentIndex apply_update].
  destruct (Z.eqb_spec (currentIndex s) 0) as [->|Hne].
  - replace (0 - 1 + L) with (L - 1) by lia. symmetry. apply Z.mod_small. lia.
  - replace (currentIndex s - 1 + L) with (currentIndex s - 1 + 1 * L) by lia.
    rewrite Z.mod_add by lia. symmetry. apply Z.mod_small. lia.
Qed.

(** A transition started at rest ends at rest: the flag is cleared and no
    timeout is left. *)
Lemma advance_settles (s : state) :
  isTransitioning s = false -> timers s = [] ->
  isTransitioning (advance L s) = false /\ timers (advance L s) = [].
Proof.
  intros Ht Hts. rewrite advance_from_rest by assumption. split; reflexivity.
Qed.

(** With three slides or more, or from the last of two, [advance] ends
    with the direction ['right']. *)
Lemma advance_direction_right (s : state) :
  0 < L -> 0 <= currentIndex s < L ->
  isTransitioning s = false -> timers s = [] ->
  ~ (L = 2 /\ currentIndex s = 0) ->
  slideDirection (advance L s) = SlideRight.
Proof.
  intros HL Hi Ht Hts Hne. rewrite advance_from_rest by assumption.
  cbn [slideDirection apply_update]. unfold direction_of.
  split_comparisons; reflexivity || lia.
Qed.

(** From the first of exactly two slides, [advance] ends with the
    direction ['left']: the step 0 -> 1 is taken for the wraparound from
    the first slide to the last. *)
Lemma advance_direction_left_of_two (s : state) :
  L = 2 -> currentIndex s = 0 ->
  isTransitioning s = false -> timers s = [] ->
  slideDirection (advance L s) = SlideLeft.
Proof.
  intros HL Hi Ht Hts. rewrite advance_from_rest by assumption.
  cbn [slideDirection apply_update]. unfold direction_of. rewrite Hi.
  split_comparisons; reflexivity || lia.
Qed.

(** With two slides or more, [retreat] from the first slide ends on the
    last one with the direction ['left']. *)
Lemma retreat_from_first (s : state) :
  2 <= L -> currentIndex s = 0 ->
  isTransitioning s = false -> timers s = [] ->
  currentIndex (retreat L s) = L - 1 /\
  slideDirection (retreat L s) = SlideLeft.
Proof.
  intros HL Hi Ht Hts. rewrite retreat_from_rest by assumption.
  cbn [currentIndex slideDirection apply_update]. unfold direction_of.
  rewrite Hi. split; split_comparisons; reflexivity || lia.
Qed.

(** From the last of exactly two slides, [retreat] ends on the first one
    with the direction ['right']: the same confusion, the other way. *)
Lemma retreat_direction_right_of_two (s : state) :
  L = 2 -> currentIndex s = 1 ->
  isTransitioning s = false -> timers s = [] ->
  currentIndex (retreat L s) = 0 /\
  slideDirection (retreat L s) = SlideRight.
Proof.
  intros HL Hi Ht Hts. rewrite retreat_from_rest by assumption.
  cbn [currentIndex slideDirection apply_update]. unfold direction_of.
  rewrite Hi. split; split_comparisons; reflexivity || lia.
Qed.

(** With a single slide the auto-play interval is never set up, and the
    arrows and indicators are not rendered. *)
Lemma single_slide_is_still (s : state) :
  L <= 1 -> (autoPlayTick L s = s) /\ (controlsShown L = false).
Proof.
  intros HL. unfold autoPlayTick, autoPlayActive, controlsShown.
  rewrite Z.gtb_ltb. destruct (Z.ltb_spec 1 L); [lia|].
  rewrite andb_false_r. split; reflexivity.
Qed.

(** While a transition is in progress the three entry points return
    without touching the state. *)
Lemma entry_points_guarded (s : state) (index : Z) :
  isTransitioning s = true ->
  nextSlide L s = s /\ prevSlide L s = s /\ goToSlide L index s = s.
Proof.
  intros H. unfold nextSlide, prevSlide, goToSlide. rewrite H. auto.
Qed.

(** C4: [goToSlide(index)] called while a transition is in progress, or
    with [index] equal to the current index, returns the carousel state
    as it was: current index, previous index, transitioning flag,
    direction, pause flags and pending timeouts are all unmodified. *)
Theorem goToSlide_noop (s : state) (index : Z) :
  isTransitioning s = true \/ index = currentIndex s ->
  goToSlide L index s = s.
Proof.
  intros [H | H]; unfold goToSlide.
  - rewrite H. reflexivity.
  - subst index. rewrite Z.eqb_refl, orb_true_r. reflexivity.
Qed.

End BannerFacts.

(** C1 at a banner of two slides: [advance] from the first slide reaches
    index 1 = (0+1) mod 2, but the direction it ends with is ['left']
    (backward), not ['right'] (forward). *)
Theorem advance_of_two_slides_backward :
  let s := Banner.advance 2 (Banner.resting 0 0 Banner.SlideRight) in
  Banner.currentIndex s = 1 /\
  Banner.isTransitioning s = false /\
  Banner.slideDirection s = Banner.SlideLeft.
Proof. cbn. auto. Qed.

(** The transition guard leaves a concrete carousel in mid-transition
    untouched, and so does a jump to the current slide. *)
Lemma goToSlide_noop_witness :
  Banner.goToSlide 5 3
    {| Banner.currentIndex := 1; Banner.prevIndex := 0;
       Banner.isTransitioning := true;
       Banner.slideDirection := Banner.SlideRight;
       Banner.isPaused := false; Banner.showModal := false;
       Banner.timers := [Banner.Tsettle] |}
  = {| Banner.currentIndex := 1; Banner.prevIndex := 0;
       Banner.isTransitioning := true;
       Banner.slideDirection := Banner.SlideRight;
       Banner.isPaused := false; Banner.showModal := false;
       Banner.timers := [Banner.Tsettle] |} /\
  Banner.goToSlide 5 1 (Banner.resting 1 0 Banner.SlideRight)
  = Banner.resting 1 0 Banner.SlideRight.
Proof.
  split.
  - apply goToSlide_noop. left. reflexivity.
  - apply goToSlide_noop. right. reflexivity.
Defined.

(** ** The debounced search *)

Section SearchFacts.

Import Navbar.

Lemma run_app (s : state) (es1 es2 : list event) :
  run s (es1 ++ es2) = run (run s es1) es2.
Proof. unfold run. apply fold_left_app. Qed.

(** The last element of a non-empty list does not depend on the default. *)
Lemma last_cons {A} (a : A) (l : list A) (d : A) :
  List.last (a :: l) d = List.last l a.
Proof.
  revert a d. induction l as [|b l IH]; intros a d; [reflexivity|].
  change (List.last (a :: b :: l) d) with (List.last (b :: l) d).
  rewrite !IH. reflexivity.
Qed.

(** [utf16_eqb] decides equality of code-unit sequences. *)
Lemma utf16_eqb_spec (a b : utf16) : reflect (a = b) (utf16_eqb a b).
Proof.
  revert b. induction a as [|x a IH]; intros [|y b]; cbn [utf16_eqb];
    try (constructor; congruence).
  destruct (N.eqb_spec x y) as [->|Hne]; cbn [andb].
  - destruct (IH b) as [->|Hne]; constructor; congruence.
  - constructor. congruence.
Qed.

Lemma utf16_eqb_neq (a b : utf16) : utf16_eqb a b = false <-> a <> b.
Proof. destruct (utf16_eqb_spec a b); split; congruence. Qed.

(** A keystroke that changes the text replaces whatever timeout was
    pending by a fresh one and touches nothing else. *)
Lemma onChange_changed (q : utf16) (s : state) :
  utf16_eqb q (searchQuery s) = false ->
  onChange q s
  = {| showSearch := showSearch s; searchQuery := q;
       searchResults := searchResults s; isSearching := isSearching s;
       selectedMovie := selectedMovie s;
       searchTimeout := Some (q, debounce_ms);
       calls := calls s; errors := errors s |}.
Proof. intros H. unfold onChange, setSearchQuery. rewrite H. reflexivity. Qed.

(** Before it is due a timeout only counts down. *)
Lemma elapse_early (ms : nat) (q : utf16) (left_ms : nat) (s : state) :
  searchTimeout s = Some (q, left_ms) -> (ms < left_ms)%nat ->
  elapse ms s = set_searchTimeout (Some (q, (left_ms - ms)%nat)) s.
Proof.
  intros H Hlt. unfold elapse. rewrite H.
  destruct (Nat.leb_spec left_ms ms); [lia | reflexivity].
Qed.

(** Once due, the timeout runs its callback on the query it captured. *)
Lemma elapse_due (ms : nat) (q : utf16) (left_ms : nat) (s : state) :
  searchTimeout s = Some (q, left_ms) -> (left_ms <= ms)%nat ->
  elapse ms s = timeoutCallback q (set_searchTimeout None s).
Proof.
  intros H Hle. unfold elapse. rewrite H.
  destruct (Nat.leb_spec left_ms ms); [reflexivity | lia].
Qed.

(** Time passing over an idle overlay issues no call and keeps the query. *)
Lemma elapse_idle (ms : nat) (s : state) :
  idle s = true ->
  calls (elapse ms s) = calls s /\ searchQuery (elapse ms s) = searchQuery s.
Proof.
  unfold idle, elapse. destruct (searchTimeout s) as [[q r]|]; [|auto].
  intros Hq. apply negb_true_iff in Hq.
  destruct (r <=? ms)%nat; [|auto].
  unfold timeoutCallback. rewrite Hq. auto.
Qed.

(** Keystrokes that each follow the previous one within the delay keep
    re-arming the timeout and never let it fire. *)
Lemma rapid_typing_invariant (ks : list (nat * utf16)) :
  forall (s : state) (q0 : utf16),
    searchQuery s = q0 -> searchTimeout s = Some (q0, debounce_ms) ->
    rapid_from q0 ks = true ->
    searchQuery (run s (typing ks)) = List.last (map snd ks) q0 /\
    searchTimeout (run s (typing ks))
      = Some (List.last (map snd ks) q0, debounce_ms) /\
    calls (run s (typing ks)) = calls s.
Proof.
  induction ks as [|[gap q] rest IH]; intros s q0 Hq Ht Hr.
  - cbn. auto.
  - cbn [rapid_from] in Hr.
    apply andb_true_iff in Hr as [Hr Hrest].
    apply andb_true_iff in Hr as [Hgap Hne].
    apply Nat.ltb_lt in Hgap. apply negb_true_iff in Hne.
    cbn [typing run fold_left step]. fold (run (onChange q (elapse gap s)) (typing rest)).
    rewrite (elapse_early gap q0 debounce_ms s Ht Hgap).
    rewrite onChange_changed by (cbn; rewrite Hq; exact Hne).
    cbn [map snd]. rewrite last_cons.
    match goal with |- context [run ?s' _] => specialize (IH s' q eq_refl eq_refl Hrest) end.
    exact IH.
Qed.

(** C2, as the code has it: a keystroke that changes the query text
    cancels the pending debounce timeout and arms a new one of 500 ms,
    whatever the length of the query, and changes neither the result list
    nor the calls issued.  Nothing happens before the 500 ms are over.
    When the timeout fires, a query of trimmed length above 2 is searched
    for; for a query of trimmed length 2 or less the result list is
    cleared then (not at the keystroke, where only the results panel is
    hidden), and no call is made for it, by the timeout or by a submit. *)
Theorem keystroke_debounce (s : state) (q : utf16) :
  q <> searchQuery s ->
  let s' := onChange q s in
  searchTimeout s' = Some (q, debounce_ms) /\
  searchResults s' = searchResults s /\
  calls s' = calls s /\
  (forall ms, (ms < debounce_ms)%nat ->
     calls (elapse ms s') = calls s /\
     searchResults (elapse ms s') = searchResults s) /\
  (forall ms, (debounce_ms <= ms)%nat ->
     if searchable q
     then calls (elapse ms s') = calls s ++ [q] /\
          isSearching (elapse ms s') = true
     else calls (elapse ms s') = calls s /\
          searchResults (elapse ms s') = []) /\
  (searchable q = false ->
     panelShown s' = false /\ calls (handleSearch s') = calls s).
Proof.
  intros Hne. apply utf16_eqb_neq in Hne.
  cbv zeta. rewrite (onChange_changed q s Hne).
  split; [reflexivity|]. split; [reflexivity|]. split; [reflexivity|].
  split; [|split].
  - intros ms Hms.
    erewrite elapse_early by (cbn; eauto). split; reflexivity.
  - intros ms Hms.
    erewrite elapse_due by (cbn; eauto).
    unfold timeoutCallback. destruct (searchable q); split; reflexivity.
  - intros Hshort. split.
    + unfold panelShown. cbn [showSearch searchQuery].
      rewrite Hshort. apply andb_false_r.
    + unfold handleSearch. cbn [searchQuery]. rewrite Hshort. reflexivity.
Qed.

(** C3, as the code has it: from an overlay with no search pending, a
    burst of keystrokes that each change the text and each follow the
    previous one by less than 500 ms, closed by at least 500 ms without
    input, issues exactly one search call carrying the final value when
    that value has trimmed length above 2, and no call at all otherwise. *)
Theorem rapid_typing_calls (s : state) (ks : list (nat * utf16)) (quiet : nat) :
  idle s = true -> ks <> [] -> rapid (searchQuery s) ks = true ->
  (debounce_ms <= quiet)%nat ->
  calls (run s (session ks quiet))
  = calls s ++ (if searchable (final_query s ks)
                then [final_query s ks] else []).
Proof.
  intros Hidle Hks Hrapid Hquiet.
  destruct ks as [|[gap q] rest]; [congruence|]. clear Hks.
  cbn [rapid] in Hrapid. apply andb_true_iff in Hrapid as [Hne Hrest].
  apply negb_true_iff in Hne.
  unfold session, final_query. cbn [map snd]. rewrite last_cons.
  cbn [typing app run fold_left step].
  fold (run (onChange q (elapse gap s)) (typing rest ++ [Wait quiet])).
  destruct (elapse_idle gap s Hidle) as [Hcalls Hquery].
  rewrite onChange_changed by (rewrite Hquery; exact Hne).
  rewrite run_app.
  match goal with
  | |- context [run ?s' (typing rest)] =>
      destruct (rapid_typing_invariant rest s' q eq_refl eq_refl Hrest)
        as (_ & Htimer & Hsame);
      set (s1 := run s' (typing rest)) in *
  end.
  cbn [run fold_left step].
  rewrite (elapse_due quiet _ debounce_ms s1 Htimer Hquiet).
  unfold timeoutCallback.
  destruct (searchable (List.last (map snd rest) q)); cbn.
  - rewrite Hsame. cbn. rewrite Hcalls. reflexivity.
  - rewrite Hsame. cbn. rewrite Hcalls. symmetry. apply app_nil_r.
Qed.

End SearchFacts.

(** The sample overlay is what typing a query, letting the debounce fire
    and receiving one result leaves behind. *)
Lemma overlay_with_results_reachable :
  Navbar.run (Navbar.set_showSearch true Navbar.mounted)
    [Navbar.Keystroke (units "bat"); Navbar.Wait 500;
     Navbar.Settled (Resolves [Samples.batman])]
  = Samples.overlay_with_results.
Proof. reflexivity. Qed.

(** C2 refuted as stated: shortening the query to two letters leaves
    the result list of the earlier search in the state; it is not cleared
    at the keystroke. *)
Lemma short_query_keeps_results :
  Navbar.searchable (units "ba") = false /\
  Navbar.searchResults
    (Navbar.onChange (units "ba") Samples.overlay_with_results)
  = [Samples.batman] /\
  Navbar.searchResults
    (Navbar.onChange (units "ba") Samples.overlay_with_results)
  <> [].
Proof. repeat split; discriminate. Qed.

Lemma keystroke_debounce_witness :
  units "ba" <> Navbar.searchQuery Samples.overlay_with_results /\
  Navbar.searchResults
    (Navbar.elapse 500
       (Navbar.onChange (units "ba") Samples.overlay_with_results))
  = [].
Proof.
  split; [discriminate|].
  pose proof (keystroke_debounce Samples.overlay_with_results (units "ba")
                ltac:(discriminate)) as H.
  cbv zeta in H. destruct H as (_ & _ & _ & _ & H & _).
  specialize (H 500%nat ltac:(reflexivity)).
  change (Navbar.searchable (units "ba")) with false in H. exact (proj2 H).
Defined.

(** C3 refuted as stated: with 600 ms between two keystrokes and 500 ms
    of quiet after the second, two calls are issued, the first of them
    for the superseded value. *)
Lemma slow_typing_two_calls :
  Navbar.calls
    (Navbar.run Navbar.mounted
       (Navbar.session [(0%nat, units "bat"); (600%nat, units "batman")] 500))
  = [units "bat"; units "batman"].
Proof. reflexivity. Qed.

(** A three-letter query followed 499 ms later by a two-letter one, then
    500 ms of quiet: no call for either. *)
Lemma rapid_typing_calls_witness :
  Navbar.calls
    (Navbar.run Navbar.mounted
       (Navbar.session [(0%nat, units "bat"); (499%nat, units "ba")] 500))
  = [].
Proof.
  exact (rapid_typing_calls Navbar.mounted
           [(0%nat, units "bat"); (499%nat, units "ba")] 500
           eq_refl ltac:(discriminate) eq_refl ltac:(reflexivity)).
Defined.

(** ** The details view *)

Section ModalFacts.

Import MovieModal.

(** C8, as the code has it: the details view classifies an object as a
    series exactly when a season count is present, or a first-air date is
    present, or the kind marker equals ['tv'], or the [name] field is
    present -- whether or not [title] is present too; otherwise it is a
    movie. *)
Theorem classified_as_series_iff (movie : Movie) (st : state) :
  isTV (movieEffect movie st) = true <->
  number_of_seasons movie <> undefined \/
  first_air_date movie <> undefined \/
  media_type movie = val "tv"%string \/
  name movie <> undefined.
Proof.
  assert (Hdef : forall A (f : field A), defined f = true <-> f <> undefined).
  { intros A []; cbn; split; congruence. }
  assert (Htv : is_string (media_type movie) "tv" = true
                <-> media_type movie = val "tv"%string).
  { unfold is_string. destruct (media_type movie) as [| |t]; cbn;
      [split; congruence | split; congruence |].
    rewrite String.eqb_eq. split; congruence. }
  assert (HisTV : isTV (movieEffect movie st) = isTVShow movie).
  { unfold movieEffect. destruct (_ && _); reflexivity. }
  rewrite HisTV. unfold isTVShow.
  rewrite !orb_true_iff, !Hdef, Htv. tauto.
Qed.

(** A present, non-zero season count alone passes the guard of the
    effect. *)
Lemma season_guard (movie : Movie) :
  isTVShow movie && truthy (number_of_seasons movie)
  = truthy (number_of_seasons movie).
Proof.
  unfold isTVShow.
  destruct (number_of_seasons movie); cbn [defined orb];
    [apply andb_false_r | apply andb_false_r | reflexivity].
Qed.

(** What the [forEach] leaves under key [k]: the default-patched count of
    the last entry numbered [k], if [k > 0] and there is one. *)
Lemma recorded_count (l : list Season) (m0 : gmap Z Z) (k : Z) :
  fold_left recordSeason l m0 !! k
  = match season_entry l k with
    | Some e => Some (or_default (episode_count e) 10)
    | None => m0 !! k
    end.
Proof.
  induction l as [|x l IH] using rev_ind.
  - reflexivity.
  - rewrite fold_left_app. cbn [fold_left].
    unfold season_entry in *. rewrite rev_unit. cbn [List.find].
    unfold recordSeason at 1.
    destruct (season_number x) as [| |n]; try exact IH.
    destruct (Z.gtb_spec n 0); cbn [andb]; [|exact IH].
    destruct (Z.eqb_spec n k) as [->|Hne].
    + apply lookup_insert_eq.
    + rewrite lookup_insert_ne by exact Hne. exact IH.
Qed.

(** Season 0 and negative numbers never become keys. *)
Lemma specials_excluded (l : list Season) (k : Z) :
  k <= 0 -> fold_left recordSeason l ∅ !! k = None.
Proof.
  intros Hk. rewrite recorded_count.
  destruct (season_entry l k) as [e|] eqn:E; [|apply lookup_empty].
  unfold season_entry in E. apply find_some in E as [_ E].
  destruct (season_number e) as [| |n]; try discriminate.
  apply andb_true_iff in E as [Hpos Heq].
  apply Z.gtb_gt in Hpos. apply Z.eqb_eq in Heq. lia.
Qed.

(** Every stored count is truthy, so the [|| 10] at the lookup only
    serves missing keys. *)
Lemma or_default_truthy (c : field Z) : truthy (or_default c 10) = true.
Proof.
  destruct c as [| |n]; try reflexivity.
  unfold or_default. destruct (truthy n) eqn:E; [exact E | reflexivity].
Qed.


(** The ['tv'] marker set by the patch decides the classification. *)
Lemma patched_is_series (details : Movie) (st : state) :
  isTV (movieEffect (mapTV details) st) = true.
Proof.
  unfold movieEffect.
  assert (H : isTVShow (mapTV details) = true).
  { unfold isTVShow, mapTV. cbn [media_type is_string].
    rewrite orb_true_r. apply orb_true_r || reflexivity. }
  rewrite H. destruct (_ && _); reflexivity.
Qed.


(** The URL of an item with a usable catalog id that the view holds as a
    series, by the lookup of the code: nested identifier first. *)
Lemma series_url (movie : Movie) (st : state) (n : Z) :
  id movie = val n -> n <> 0 -> isTV st = true ->
  (forall i, resolveImdbId movie = val i -> truthy i = true ->
     getEmbedUrl movie st
     = (embed_tv_imdb i (selectedSeason st) (selectedEpisode st), [])) /\
  (truthy (resolveImdbId movie) = false ->
     getEmbedUrl movie st
     = (embed_tv_tmdb n (selectedSeason st) (selectedEpisode st),
        [fallback_warning])).
Proof.
  intros Hid Hn HTV.
  assert (Hnz : negb (truthy n) = false).
  { unfold truthy, truthy_Z. apply Z.eqb_neq in Hn. rewrite Hn. reflexivity. }
  unfold getEmbedUrl. rewrite Hid, Hnz, HTV. split.
  - intros i Hi Ht. rewrite Hi, Ht. reflexivity.
  - intros Hnone. destruct (resolveImdbId movie) as [| |i]; try reflexivity.
    change (truthy (val i)) with (truthy i) in Hnone. rewrite Hnone.
    reflexivity.
Qed.

(** Without a usable catalog id the URL is empty and nothing is warned. *)
Lemma no_id_no_url (movie : Movie) (st : state) :
  truthy (id movie) = false -> getEmbedUrl movie st = (EmptyString, []).
Proof.
  unfold getEmbedUrl. destruct (id movie) as [| |n]; try reflexivity.
  change (truthy (val n)) with (truthy n). intros ->. reflexivity.
Qed.


End ModalFacts.

(** C8 refuted as stated: an object with both [name] and [title] and no
    other marker is classified as a series, although its movie-only title
    field is present. *)
Lemma both_titles_is_series :
  MovieModal.isTV (MovieModal.opened Samples.both_titles) = true /\
  MovieModal.claimed_isSeries Samples.both_titles = false.
Proof. split; reflexivity. Qed.





(** ** Category rows *)

Section RowFacts.

Import MovieRow.

(** The early return on an empty list is subsumed by the one on an empty
    filtered list. *)
Lemma render_by_valid heading movies rowType visible :
  render heading movies rowType visible
  = match validMovies movies with
    | [] => Nothing
    | valid =>
        Row heading
          (if visible
           then Some (map (fun movie =>
                             {| card_movie := movie;
                                card_mediaType := mediaTypeOf rowType movie |})
                        valid)
           else None)
    end.
Proof. destruct movies; reflexivity. Qed.

(** The cards of a visible row are the filtered list, in order. *)
Lemma shown_render heading movies rowType visible :
  shown (render heading movies rowType visible)
  = if visible then validMovies movies else [].
Proof.
  rewrite render_by_valid.
  destruct (validMovies movies) as [|m valid]; [destruct visible; reflexivity|].
  destruct visible; [|reflexivity].
  cbn [shown]. rewrite map_map. cbn [card_movie]. apply map_id.
Qed.

(** C10: a row shows only items of its list that have a poster path; an
    item without one is never shown; once visible the row shows exactly
    the items with a poster path, in their order; and when no item has
    one -- in particular when the list is empty -- the row renders
    nothing, not even its heading. *)
Theorem row_shows_only_posters heading (movies : list Movie) rowType visible :
  let v := render heading movies rowType visible in
  (forall m, In m (shown v) -> In m movies /\ truthy (poster_path m) = true) /\
  (forall m, truthy (poster_path m) = false -> ~ In m (shown v)) /\
  (visible = true -> shown v = validMovies movies) /\
  ((forall m, In m movies -> truthy (poster_path m) = false) -> v = Nothing) /\
  (movies = [] -> v = Nothing).
Proof.
  cbv zeta.
  assert (Hshown : forall m, In m (shown (render heading movies rowType visible))
                     -> In m movies /\ truthy (poster_path m) = true).
  { intros m. rewrite shown_render. destruct visible; [|contradiction].
    unfold validMovies. apply filter_In. }
  split; [exact Hshown|]. split; [|split; [|split]].
  - intros m Hno Hin. apply Hshown in Hin as [_ Hyes]. congruence.
  - intros ->. apply shown_render.
  - intros Hnone. rewrite render_by_valid.
    destruct (validMovies movies) as [|m valid] eqn:E; [reflexivity|].
    assert (Hin : In m (validMovies movies)) by (rewrite E; left; reflexivity).
    unfold validMovies in Hin. apply filter_In in Hin as [Hin Hyes].
    rewrite (Hnone m Hin) in Hyes. discriminate.
  - intros ->. reflexivity.
Qed.

End RowFacts.

(** A row given one item without a poster and one with: only the second
    is shown; a row given only the first renders nothing. *)
Lemma row_shows_only_posters_witness :
  MovieRow.shown
    (MovieRow.render "Popular Right Now" [Samples.no_poster; Samples.batman]
       (Some "movie"%string) true)
  = [Samples.batman] /\
  MovieRow.render "Popular Right Now" [Samples.no_poster]
    (Some "movie"%string) true
  = MovieRow.Nothing.
Proof.
  split.
  - exact (proj1 (proj2 (proj2 (row_shows_only_posters "Popular Right Now"
             [Samples.no_poster; Samples.batman] (Some "movie"%string) true)))
             eq_refl).
  - apply (proj1 (proj2 (proj2 (proj2 (row_shows_only_posters
             "Popular Right Now" [Samples.no_poster]
             (Some "movie"%string) true))))).
    intros m [<-|[]]. reflexivity.
Defined.

(** ** The root composition *)

Section AppFacts.

Import App.

(** [Promise.all] rejects exactly when one of its promises does. *)
Lemma Promise_all_rejects {A} (ps : list (promise A)) :
  Promise_all ps = Rejects <-> In Rejects ps.
Proof.
  induction ps as [|[|a] ps IH]; cbn.
  - split; [discriminate | contradiction].
  - split; auto.
  - destruct (Promise_all ps); split.
    + intros _. right. apply IH. reflexivity.
    + reflexivity.
    + discriminate.
    + intros [H|H]; [discriminate | apply IH in H; discriminate].
Qed.

(** C5: if one of the eight startup fetches fails, the fetch as a whole
    fails: the error state is entered, none of the fetched lists is
    stored, and the root renders the error panel (the message and the
    retry button) and no category item at all. *)
Theorem startup_all_or_nothing (f : fetches) (s : state) (seen : string -> bool) :
  In Rejects (requests f) ->
  let s' := fetchData f s in
  isLoading s' = false /\
  error s' = Some load_failure /\
  lists s' = lists s /\
  errors s' = errors s ++ ["Error fetching movies:"%string] /\
  render seen s' = ErrorPanel load_failure /\
  items_shown (render seen s') = [].
Proof.
  intros Hin. apply Promise_all_rejects in Hin.
  cbv zeta. unfold fetchData. rewrite Hin.
  repeat split.
Qed.

(** With all eight fetches resolved, the lists are stored and the content
    is rendered. *)
Lemma startup_success (f : fetches) (s : state) (seen : string -> bool) values :
  Promise_all (requests f) = Resolves values ->
  error (fetchData f s) = None /\ isLoading (fetchData f s) = false /\
  popularMovies (lists (fetchData f s)) = category values 0.
Proof.
  intros H. unfold fetchData. rewrite H. repeat split.
Qed.

End AppFacts.

Lemma startup_all_or_nothing_witness :
  let f :=
    {| App.movie_popular := Resolves (val [Samples.batman]);
       App.movie_top_rated := Resolves (val [Samples.batman]);
       App.movie_upcoming := Resolves (val [Samples.batman]);
       App.movie_now_playing := Resolves (val [Samples.batman]);
       App.tv_popular := Resolves (val [Samples.three_seasons]);
       App.tv_top_rated := Rejects;
       App.trending_movie_week := Resolves (val [Samples.batman]);
       App.trending_tv_week := Resolves (val [Samples.three_seasons]) |} in
  In Rejects (App.requests f) /\
  App.render (fun _ => true) (App.fetchData f App.initial)
  = App.ErrorPanel App.load_failure.
Proof.
  cbv zeta. split.
  - cbn. tauto.
  - refine (proj1 (proj2 (proj2 (proj2 (proj2
      (startup_all_or_nothing _ App.initial (fun _ => true) _)))))).
    cbn. tauto.
Defined.

(** ** Item clicks whose detail fetch fails *)









(* ===================================================================== *)
(** * Part II, continued: properties beyond the claims                     *)
(* ===================================================================== *)

(** ** The carousel under every event *)

Section CarouselRuns.

Import Banner BannerUI.

Variable L : Z.

Ltac fields :=
  cbn [currentIndex prevIndex isTransitioning slideDirection isPaused
       showModal timers] in *.

(** The updaters keep the index inside the banner set. *)
Lemma apply_update_in_range (u : update) (i : Z) :
  1 <= L -> 0 <= i < L -> valid_timer L (Tshift u) ->
  0 <= apply_update L u i < L.
Proof.
  intros HL Hi Hu. destruct u as [| |index]; cbn [apply_update].
  - destruct (Z.eqb_spec i (L - 1)); lia.
  - destruct (Z.eqb_spec i 0); lia.
  - exact Hu.
Qed.

Lemma begin_well_formed (u : update) (s : state) :
  well_formed L s -> isTransitioning s = false ->
  valid_timer L (Tshift u) ->
  well_formed L (begin_transition L u s).
Proof.
  destruct s as [i p t d pa sm ts]. unfold well_formed, at_rest. fields.
  intros (Hi & Hp & [[_ Hts] | [Ht _]]) Hrest Hu; [|congruence].
  subst t ts. rewrite begin_at_rest. fields.
  repeat split; try lia. right. split; [reflexivity|].
  exists (Tshift u). split; [reflexivity | exact Hu].
Qed.

Lemma fire_well_formed (s : state) :
  1 <= L -> well_formed L s -> well_formed L (fire L s).
Proof.
  intros HL. destruct s as [i p t d pa sm ts]. unfold well_formed, at_rest.
  fields. intros (Hi & Hp & [[Ht Hts] | [Ht (tm & Hts & Hv)]]); subst.
  - unfold fire. fields. repeat split; try lia. left. split; reflexivity.
  - destruct tm as [u|].
    + rewrite fire_shift. fields.
      pose proof (apply_update_in_range u i HL Hi Hv).
      repeat split; try lia. right. split; [reflexivity|].
      exists Tsettle. split; [reflexivity | exact I].
    + rewrite fire_settle. fields.
      repeat split; try lia. left. split; reflexivity.
Qed.

Lemma entry_well_formed (u : update) (s : state) :
  well_formed L s -> valid_timer L (Tshift u) ->
  well_formed L (if isTransitioning s then s else begin_transition L u s).
Proof.
  intros Hwf Hu. destruct (isTransitioning s) eqn:E; [exact Hwf|].
  apply begin_well_formed; assumption.
Qed.

(** The pointer and modal handlers touch the two pause flags only. *)
Lemma flags_well_formed (s : state) (b c : bool) :
  well_formed L s -> well_formed L (set_isPaused b (set_showModal c s)).
Proof. destruct s. exact (fun H => H). Qed.

Lemma step_well_formed (s : state) (e : event) :
  1 <= L -> well_formed L s -> well_formed L (step L s e).
Proof.
  intros HL Hwf. destruct e as [| |index| | | | | | |hovering]; cbn [step].
  - destruct (controlsShown L); [|exact Hwf].
    apply (entry_well_formed Unext); [exact Hwf | exact I].
  - destruct (controlsShown L); [|exact Hwf].
    apply (entry_well_formed Uprev); [exact Hwf | exact I].
  - destruct (controlsShown L); cbn [andb]; [|exact Hwf].
    destruct (Z.leb_spec 0 index); cbn [andb]; [|exact Hwf].
    destruct (Z.ltb_spec index L); [|exact Hwf].
    unfold goToSlide.
    destruct (isTransitioning s) eqn:E; cbn [orb]; [exact Hwf|].
    destruct (index =? currentIndex s); [exact Hwf|].
    apply begin_well_formed; [exact Hwf | exact E | cbn; lia].
  - apply fire_well_formed; assumption.
  - unfold autoPlayTick. destruct (autoPlayActive L s); [|exact Hwf].
    apply (entry_well_formed Unext); [exact Hwf | exact I].
  - destruct s; exact Hwf.
  - destruct s; exact Hwf.
  - destruct s; exact Hwf.
  - destruct s; exact Hwf.
  - destruct (showModal s); [|exact Hwf].
    unfold handleCloseModal. destruct hovering; destruct s; exact Hwf.
Qed.

Lemma run_well_formed (es : list event) :
  forall s, 1 <= L -> well_formed L s -> well_formed L (run L s es).
Proof.
  induction es as [|e es IH]; intros s HL Hwf; [exact Hwf|].
  cbn [run fold_left]. apply IH; [exact HL|].
  apply step_well_formed; assumption.
Qed.

(** X1: whatever the user and the timers do to a mounted carousel of at
    least one item, the current and the previous index stay inside the
    banner set, at most one timeout is pending, and the transitioning
    flag is up exactly while it is: at most one transition is in
    flight. *)
Theorem carousel_stays_well_formed (es : list event) :
  1 <= L ->
  let s := run L initial es in
  0 <= currentIndex s < L /\
  0 <= prevIndex s < L /\
  (List.length (timers s) <= 1)%nat /\
  (isTransitioning s = true <-> timers s <> []).
Proof.
  intros HL. cbv zeta.
  assert (Hwf : well_formed L (run L initial es)).
  { apply run_well_formed; [exact HL|].
    unfold well_formed, at_rest, initial. fields.
    repeat split; try lia. left. split; reflexivity. }
  destruct Hwf as (Hi & Hp & [[Ht Hts] | [Ht (tm & Hts & _)]]);
    rewrite Ht, Hts; cbn [List.length];
    (split; [exact Hi | split; [exact Hp | split; [lia|]]]);
    split; congruence.
Qed.

(** X2: a transition cannot hang: from any state the events can reach,
    two firings of the timeouts bring the carousel to rest. *)
Theorem two_timeouts_settle (es : list event) :
  1 <= L ->
  let s := fire L (fire L (run L initial es)) in
  isTransitioning s = false /\ timers s = [].
Proof.
  intros HL. cbv zeta.
  assert (Hwf : well_formed L (run L initial es)).
  { apply run_well_formed; [exact HL|].
    unfold well_formed, at_rest, initial. fields.
    repeat split; try lia. left. split; reflexivity. }
  destruct (run L initial es) as [i p t d pa sm ts].
  unfold well_formed, at_rest in *. fields.
  destruct Hwf as (Hi & Hp & [[Ht Hts] | [Ht (tm & Hts & Hv)]]); subst.
  - unfold fire. fields. split; reflexivity.
  - destruct tm as [u|].
    + rewrite fire_shift. cbn [app]. rewrite fire_settle. fields.
      split; reflexivity.
    + rewrite fire_settle. unfold fire. fields. split; reflexivity.
Qed.

(** While the modal flag is set and no timeout is pending, the events
    that need no click leave the slide and the flag as they are. *)
Lemma passive_step_frozen (s : state) (e : event) :
  showModal s = true -> timers s = [] -> passive e = true ->
  currentIndex (step L s e) = currentIndex s /\
  showModal (step L s e) = true /\ timers (step L s e) = [].
Proof.
  intros Hm Hts He. destruct s as [i p t d pa sm ts]. fields. subst.
  destruct e; try discriminate; cbn [step].
  - unfold fire. fields. repeat split.
  - unfold autoPlayTick, autoPlayActive. fields. cbn [negb].
    rewrite andb_false_r. cbn [andb]. fields. repeat split.
  - repeat split.
  - repeat split.
Qed.

(** X3: once the details modal has been opened on a carousel at rest,
    no auto-play tick, hover event or timer moves the carousel: the
    current index is the same after any number of them. *)
Theorem open_modal_freezes_slide (s : state) (es : list event) :
  showModal s = true -> timers s = [] ->
  forallb passive es = true ->
  currentIndex (run L s es) = currentIndex s /\
  showModal (run L s es) = true.
Proof.
  revert s. induction es as [|e es IH]; intros s Hm Hts Hes.
  - split; [reflexivity | exact Hm].
  - cbn [forallb] in Hes. apply andb_true_iff in Hes as [He Hes].
    destruct (passive_step_frozen s e Hm Hts He) as (Hi & Hm' & Hts').
    cbn [run fold_left].
    destruct (IH (step L s e) Hm' Hts' Hes) as [IHi IHm].
    unfold run in IHi, IHm. rewrite IHi, Hi. split; [reflexivity | exact IHm].
Qed.

Lemma single_step_still (s : state) (e : event) :
  L <= 1 -> at_rest s ->
  at_rest (step L s e) /\ currentIndex (step L s e) = currentIndex s /\
  slideDirection (step L s e) = slideDirection s.
Proof.
  intros HL [Ht Hts]. destruct s as [i p t d pa sm ts]. fields. subst.
  assert (Hc : controlsShown L = false).
  { unfold controlsShown. rewrite Z.gtb_ltb. destruct (Z.ltb_spec 1 L); [lia|].
    reflexivity. }
  unfold at_rest.
  destruct e as [| |index| | | | | | |hovering]; cbn [step];
    rewrite ?Hc; cbn [andb]; fields; try (repeat split; fail).
  - unfold autoPlayTick, autoPlayActive. fold (controlsShown L). rewrite Hc.
    rewrite andb_false_r. cbn [andb]. fields. repeat split.
  - destruct sm; [|repeat split].
    unfold handleCloseModal. destruct hovering; repeat split.
Qed.

(** X4: a banner of a single item never moves: whatever happens, it
    starts no transition, stays on its slide and keeps its direction (the
    arrows and indicators are not rendered and auto-play is not set
    up). *)
Theorem single_item_never_moves (es : list event) :
  L <= 1 ->
  let s := run L initial es in
  currentIndex s = 0 /\ isTransitioning s = false /\ timers s = [] /\
  slideDirection s = SlideRight.
Proof.
  intros HL. cbv zeta.
  assert (H : forall es s, at_rest s ->
            at_rest (run L s es) /\ currentIndex (run L s es) = currentIndex s
            /\ slideDirection (run L s es) = slideDirection s).
  { clear es. induction es as [|e es IH]; intros s Hrest.
    - repeat split; apply Hrest.
    - cbn [run fold_left].
      destruct (single_step_still s e HL Hrest) as (Hr & Hi & Hd).
      destruct (IH _ Hr) as (Hr' & Hi' & Hd'). unfold run in *.
      rewrite Hi', Hd', Hi, Hd. repeat split; apply Hr'. }
  destruct (H es initial) as ([Ht Hts] & Hi & Hd).
  { split; reflexivity. }
  rewrite Hi, Hd, Ht, Hts. repeat split.
Qed.

End CarouselRuns.

(** ** How the carousel's moves compose *)

Section CarouselMoves.

Import Banner BannerUI.

Variable L : Z.

Ltac compare_indices :=
  repeat match goal with
         | |- context [Z.eqb ?a ?b] => destruct (Z.eqb_spec a b)
         | |- context [Z.gtb ?a ?b] =>
             rewrite (Z.gtb_ltb a b); destruct (Z.ltb_spec b a)
         | _ => progress cbn [andb orb negb]
         end.

(** X5: with three slides or more the direction always follows the
    button: from any slide, [advance] ends on the next index modulo the
    length with direction ['right'], and [retreat] ends on the previous
    index modulo the length with direction ['left']. *)
Theorem three_slides_follow_the_button (s : state) :
  3 <= L -> 0 <= currentIndex s < L ->
  isTransitioning s = false -> timers s = [] ->
  currentIndex (advance L s) = (currentIndex s + 1) mod L /\
  slideDirection (advance L s) = SlideRight /\
  currentIndex (retreat L s) = (currentIndex s - 1 + L) mod L /\
  slideDirection (retreat L s) = SlideLeft.
Proof.
  intros HL Hi Ht Hts.
  split; [apply advance_index; assumption || lia|].
  split; [apply advance_direction_right; assumption || lia|].
  split; [apply retreat_index; assumption || lia|].
  rewrite retreat_from_rest by assumption.
  cbn [slideDirection apply_update]. unfold direction_of.
  compare_indices; reflexivity || lia.
Qed.

(** X6: [advance] and [retreat] undo each other: either one followed by
    the other, each run to completion, is back on the slide it started
    from. *)
Theorem advance_retreat_round_trip (s : state) :
  1 <= L -> 0 <= currentIndex s < L ->
  isTransitioning s = false -> timers s = [] ->
  currentIndex (retreat L (advance L s)) = currentIndex s /\
  currentIndex (advance L (retreat L s)) = currentIndex s.
Proof.
  intros HL Hi Ht Hts. split.
  - rewrite (advance_from_rest L s Ht Hts).
    rewrite retreat_from_rest by reflexivity.
    cbn [currentIndex apply_update].
    destruct (Z.eqb_spec (currentIndex s) (L - 1)); compare_indices; lia.
  - rewrite (retreat_from_rest L s Ht Hts).
    rewrite advance_from_rest by reflexivity.
    cbn [currentIndex apply_update].
    destruct (Z.eqb_spec (currentIndex s) 0); compare_indices; lia.
Qed.

Lemma advances_index (n : nat) (s : state) :
  1 <= L -> 0 <= currentIndex s < L ->
  isTransitioning s = false -> timers s = [] ->
  currentIndex (advances L n s) = (currentIndex s + Z.of_nat n) mod L /\
  isTransitioning (advances L n s) = false /\ timers (advances L n s) = [].
Proof.
  intros HL Hi Ht Hts. induction n as [|n (IHi & IHt & IHts)].
  - cbn [advances Nat.iter]. rewrite Z.add_0_r, Z.mod_small by lia. auto.
  - unfold advances in *. rewrite Nat.iter_succ.
    assert (Hr : 0 <= currentIndex (Nat.iter n (advance L) s) < L).
    { rewrite IHi. apply Z.mod_pos_bound. lia. }
    split; [|apply advance_settles; assumption].
    rewrite advance_index by (assumption || lia). rewrite IHi.
    rewrite Zplus_mod_idemp_l. f_equal. lia.
Qed.

(** X7: [n] advances in a row, each run to completion, move the carousel
    [n] slides onward modulo the length; as many advances as there are
    slides bring it back to where it started. *)
Theorem advances_cycle (n : nat) (s : state) :
  1 <= L -> 0 <= currentIndex s < L ->
  isTransitioning s = false -> timers s = [] ->
  currentIndex (advances L n s) = (currentIndex s + Z.of_nat n) mod L /\
  currentIndex (advances L (Z.to_nat L) s) = currentIndex s.
Proof.
  intros HL Hi Ht Hts.
  split; [apply advances_index; assumption|].
  destruct (advances_index (Z.to_nat L) s HL Hi Ht Hts) as [H _].
  rewrite H, Z2Nat.id by lia.
  replace (currentIndex s + L) with (currentIndex s + 1 * L) by lia.
  rewrite Z.mod_add by lia. apply Z.mod_small. exact Hi.
Qed.

(** X8: a click on the indicator of another slide, run to completion,
    lands on that slide, records the slide it left as the previous one
    and ends at rest.  Its direction is ['right'] when the target index
    is the larger one, except that the jump from the first slide to the
    last counts as ['left'] and the jump from the last to the first as
    ['right']. *)
Theorem jumpTo_lands (s : state) (index : Z) :
  index <> currentIndex s ->
  isTransitioning s = false -> timers s = [] ->
  let s' := jumpTo L index s in
  currentIndex s' = index /\
  prevIndex s' = currentIndex s /\
  isTransitioning s' = false /\ timers s' = [] /\
  (slideDirection s' = SlideRight <->
     (currentIndex s = L - 1 /\ index = 0) \/
     (currentIndex s < index /\ ~ (currentIndex s = 0 /\ index = L - 1))).
Proof.
  intros Hne Ht Hts. cbv zeta. unfold jumpTo, goToSlide. rewrite Ht.
  apply Z.eqb_neq in Hne. rewrite Hne. cbn [orb].
  rewrite transition_from_rest by assumption.
  cbn [currentIndex prevIndex isTransitioning slideDirection timers apply_update].
  repeat (split; [reflexivity|]).
  apply Z.eqb_neq in Hne. unfold direction_of.
  compare_indices; split; intros ?; try reflexivity; try discriminate; lia.
Qed.

End CarouselMoves.

(** ** The startup lists and the banner set *)

Section StartupFacts.

Import App AppUI.

(** [Promise.all] resolves exactly when every promise does, and then with
    their values in the order of the promises. *)
Lemma Promise_all_resolves_iff {A} (ps : list (promise A)) (values : list A) :
  Promise_all ps = Resolves values <-> ps = map Resolves values.
Proof.
  revert values. induction ps as [|[|a] ps IH]; intros values; cbn.
  - split; intros H.
    + injection H as <-. reflexivity.
    + destruct values; [reflexivity | discriminate].
  - split; intros H; [discriminate|]. destruct values; discriminate.
  - destruct (Promise_all ps) as [|l] eqn:E; split; intros H.
    + discriminate.
    + destruct values as [|v values]; [discriminate|].
      cbn in H. injection H as -> H.
      apply (IH values) in H. discriminate.
    + injection H as <-. cbn. f_equal. apply IH. reflexivity.
    + destruct values as [|v values]; [discriminate|].
      cbn in H. injection H as -> H.
      apply (IH values) in H. injection H as ->. reflexivity.
Qed.

(** X9: when none of the eight startup fetches is rejected, each of the
    eight lists receives the result of its own endpoint (an [undefined]
    or [null] result counting as the empty list), no error is set or
    logged, loading ends, and the root renders its content. *)
Theorem startup_fills_each_list (f : fetches) (s : state) (seen : string -> bool) :
  ~ In Rejects (requests f) ->
  let s' := fetchData f s in
  lists s'
  = {| popularMovies := listed (movie_popular f);
       topRatedMovies := listed (movie_top_rated f);
       upcomingMovies := listed (movie_upcoming f);
       nowPlayingMovies := listed (movie_now_playing f);
       popularTV := listed (tv_popular f);
       topRatedTV := listed (tv_top_rated f);
       trendingMovies := listed (trending_movie_week f);
       trendingTV := listed (trending_tv_week f) |} /\
  error s' = None /\ isLoading s' = false /\ errors s' = errors s /\
  selectedMovie s' = selectedMovie s /\
  exists featured rows, render seen s' = Content featured rows (selectedMovie s).
Proof.
  intros Hok. destruct f as [p1 p2 p3 p4 p5 p6 p7 p8].
  unfold requests in Hok.
  cbn [movie_popular movie_top_rated movie_upcoming movie_now_playing
       tv_popular tv_top_rated trending_movie_week trending_tv_week] in Hok.
  destruct p1 as [|v1]; [exfalso; apply Hok; cbn; tauto|].
  destruct p2 as [|v2]; [exfalso; apply Hok; cbn; tauto|].
  destruct p3 as [|v3]; [exfalso; apply Hok; cbn; tauto|].
  destruct p4 as [|v4]; [exfalso; apply Hok; cbn; tauto|].
  destruct p5 as [|v5]; [exfalso; apply Hok; cbn; tauto|].
  destruct p6 as [|v6]; [exfalso; apply Hok; cbn; tauto|].
  destruct p7 as [|v7]; [exfalso; apply Hok; cbn; tauto|].
  destruct p8 as [|v8]; [exfalso; apply Hok; cbn; tauto|].
  cbv zeta. repeat split. eexists _, _. reflexivity.
Qed.

(** *** [findIndex] and the filter on first occurrences *)

Lemma findIndex_bounds {A} (p : A -> bool) (l : list A) :
  -1 <= findIndex p l < Z.of_nat (List.length l).
Proof.
  induction l as [|x l IH]; cbn [findIndex List.length]; [lia|].
  destruct (p x); [lia|]. destruct (Z.ltb_spec (findIndex p l) 0); lia.
Qed.

(** No earlier element passes and this one does: its index is found. *)
Lemma findIndex_first {A} (p : A -> bool) (pre : list A) (x : A) (rest : list A) :
  (forall y, In y pre -> p y = false) -> p x = true ->
  findIndex p (pre ++ x :: rest) = Z.of_nat (List.length pre).
Proof.
  intros Hpre Hx. induction pre as [|y pre IH]; cbn [app findIndex List.length].
  - rewrite Hx. reflexivity.
  - rewrite (Hpre y) by (left; reflexivity).
    rewrite IH by (intros z Hz; apply Hpre; right; exact Hz).
    destruct (Z.ltb_spec (Z.of_nat (List.length pre)) 0); lia.
Qed.

(** An earlier element passes: the index found is an earlier one. *)
Lemma findIndex_earlier {A} (p : A -> bool) (pre rest : list A) (y : A) :
  In y pre -> p y = true ->
  findIndex p (pre ++ rest) < Z.of_nat (List.length pre).
Proof.
  intros Hin Hy. induction pre as [|z pre IH]; [contradiction|].
  cbn [app findIndex List.length].
  destruct (p z) eqn:Hz; [lia|].
  destruct Hin as [->|Hin]; [congruence|].
  specialize (IH Hin).
  pose proof (findIndex_bounds p (pre ++ rest)).
  destruct (Z.ltb_spec (findIndex p (pre ++ rest)) 0); lia.
Qed.

Lemma same_id_iff (movie m : Movie) : same_id movie m = true <-> id m = id movie.
Proof.
  unfold same_id. destruct (id m) as [| |a], (id movie) as [| |b];
    try (split; congruence).
  rewrite Z.eqb_eq. split; congruence.
Qed.

(** The index test of [uniqueById], on the part [suf] of the array that
    follows [pre]: what is kept comes from [suf], repeats neither an
    identifier of [pre] nor one of its own, and leaves out no identifier
    of [suf] that [pre] lacks. *)
Lemma first_occurrences (suf : list Movie) :
  forall pre : list Movie,
    let kept :=
      filter_from
        (fun movie index => index =? findIndex (same_id movie) (pre ++ suf))
        (Z.of_nat (List.length pre)) suf in
    (forall m, In m kept ->
       In m suf /\ forall y, In y pre -> id y <> id m) /\
    List.NoDup (map id kept) /\
    (forall m, In m suf ->
       In (id m) (map id pre) \/ In (id m) (map id kept)).
Proof.
  induction suf as [|x rest IH]; intros pre; cbv zeta.
  - cbn. repeat split; try contradiction. constructor.
  - cbn [filter_from].
    specialize (IH (pre ++ [x])). cbv zeta in IH.
    rewrite <- app_assoc in IH. cbn [app] in IH.
    rewrite length_app in IH. cbn [List.length] in IH.
    replace (Z.of_nat (List.length pre + 1)) with (Z.of_nat (List.length pre) + 1)
      in IH by lia.
    destruct IH as (IHin & IHnd & IHall).
    set (kept := filter_from _ _ rest) in *.
    destruct (existsb (same_id x) pre) eqn:Ex.
    + (* an earlier element has the identifier of x: x is dropped *)
      apply existsb_exists in Ex as (y & Hy & Hsame).
      pose proof (findIndex_earlier (same_id x) pre (x :: rest) y Hy Hsame) as Hlt.
      destruct (Z.eqb_spec (Z.of_nat (List.length pre))
                  (findIndex (same_id x) (pre ++ x :: rest))); [lia|].
      split; [|split].
      * intros m Hm. destruct (IHin m Hm) as [Hrest Hpre].
        split; [right; exact Hrest|].
        intros z Hz. apply Hpre. apply in_or_app. left. exact Hz.
      * exact IHnd.
      * intros m [<-|Hm].
        -- left. apply same_id_iff in Hsame. rewrite <- Hsame.
           apply in_map. exact Hy.
        -- destruct (IHall m Hm) as [H|H]; [|right; exact H].
           rewrite map_app in H. apply in_app_or in H as [H|[H|[]]].
           ++ left. exact H.
           ++ left. apply same_id_iff in Hsame. rewrite <- H, <- Hsame.
              apply in_map. exact Hy.
    + (* x is the first with its identifier: it is kept *)
      assert (Hnone : forall y, In y pre -> same_id x y = false).
      { intros y Hy. destruct (same_id x y) eqn:E; [|reflexivity].
        assert (existsb (same_id x) pre = true)
          by (apply existsb_exists; exists y; auto).
        congruence. }
      assert (Hx : same_id x x = true) by (apply same_id_iff; reflexivity).
      rewrite (findIndex_first (same_id x) pre x rest Hnone Hx).
      rewrite Z.eqb_refl.
      split; [|split].
      * intros m [<-|Hm].
        -- split; [left; reflexivity|].
           intros y Hy Heq. specialize (Hnone y Hy).
           assert (same_id x y = true) by (apply same_id_iff; exact Heq).
           congruence.
        -- destruct (IHin m Hm) as [Hrest Hpre].
           split; [right; exact Hrest|].
           intros z Hz. apply Hpre. apply in_or_app. left. exact Hz.
      * cbn [map]. constructor; [|exact IHnd].
        intros Hin. apply in_map_iff in Hin as (m & Heq & Hm).
        destruct (IHin m Hm) as [_ Hpre].
        apply (Hpre x); [apply in_or_app; right; left; reflexivity|].
        symmetry. exact Heq.
      * intros m [<-|Hm]; [right; left; reflexivity|].
        destruct (IHall m Hm) as [H|H]; [|right; right; exact H].
        rewrite map_app in H. apply in_app_or in H as [H|[H|[]]].
        -- left. exact H.
        -- right. left. exact H.
Qed.

(** X10: the filter on first occurrences keeps items of the array with
    pairwise different identifiers, and every identifier of the array is
    the identifier of an item it keeps. *)
Theorem uniqueById_sound (self : list Movie) :
  (forall m, In m (uniqueById self) -> In m self) /\
  List.NoDup (map id (uniqueById self)) /\
  (forall m, In m self -> In (id m) (map id (uniqueById self))).
Proof.
  pose proof (first_occurrences self []) as H. cbv zeta in H.
  cbn [app List.length map] in H. change (Z.of_nat 0) with 0 in H.
  destruct H as (Hin & Hnd & Hall).
  split; [|split].
  - intros m Hm. apply (Hin m Hm).
  - exact Hnd.
  - intros m Hm. destruct (Hall m Hm) as [[]|H]. exact H.
Qed.

Lemma pick_sound (l : list Movie) :
  (List.length (pick l) <= 5)%nat /\
  (forall m, In m (pick l) -> In m l /\ truthy (backdrop_path m) = true) /\
  List.NoDup (map id (pick l)) /\
  (pick l = [] <-> forall m, In m l -> truthy (backdrop_path m) = false).
Proof.
  unfold pick.
  assert (Hu : (forall m, In m (uniqueById (withBackdrop l)) ->
                          In m (withBackdrop l)) /\
               List.NoDup (map id (uniqueById (withBackdrop l))) /\
               (forall m, In m (withBackdrop l) ->
                          In (id m) (map id (uniqueById (withBackdrop l))))).
  { pose proof (first_occurrences (withBackdrop l) []) as H. cbv zeta in H.
    cbn [app List.length map] in H. change (Z.of_nat 0) with 0 in H.
    destruct H as (Hin & Hnd & Hall).
    split; [|split].
    - intros m Hm. apply (Hin m Hm).
    - exact Hnd.
    - intros m Hm. destruct (Hall m Hm) as [[]|H]. exact H. }
  destruct Hu as (Hin & Hnd & Hall).
  split; [apply firstn_le_length|]. split; [|split].
  - intros m Hm.
    assert (In m (uniqueById (withBackdrop l))).
    { rewrite <- (firstn_skipn 5 (uniqueById (withBackdrop l))).
      apply in_or_app. left. exact Hm. }
    apply Hin in H. unfold withBackdrop in H. apply filter_In in H. exact H.
  - rewrite <- firstn_map.
    rewrite <- (firstn_skipn 5 (map id (uniqueById (withBackdrop l)))) in Hnd.
    apply NoDup_app_remove_r in Hnd. exact Hnd.
  - split.
    + intros Hnil m Hm. destruct (truthy (backdrop_path m)) eqn:E; [|reflexivity].
      assert (Hw : In m (withBackdrop l))
        by (unfold withBackdrop; apply filter_In; auto).
      apply Hall in Hw.
      destruct (uniqueById (withBackdrop l)) as [|u us]; [contradiction|].
      discriminate Hnil.
    + intros Hnone.
      assert (Hw : withBackdrop l = []).
      { unfold withBackdrop. destruct (List.filter _ l) as [|m ms] eqn:E;
          [reflexivity|].
        assert (Hm : In m (List.filter
                             (fun movie => truthy (backdrop_path movie)) l))
          by (rewrite E; left; reflexivity).
        apply filter_In in Hm as [Hm Hb]. rewrite (Hnone m Hm) in Hb.
        discriminate. }
      rewrite Hw. reflexivity.
Qed.

(** X11: the banner set holds at most five items, each one of the
    candidates and with a backdrop image, no two of them with the same
    identifier -- whatever order the shuffle produces. *)
Theorem banner_set_sound (shuffle : list Movie -> list Movie) (c : catalog) :
  Permutation (shuffle (allPotentialBannerMovies c)) (allPotentialBannerMovies c) ->
  let banner := bannerMovies shuffle c in
  (List.length banner <= 5)%nat /\
  (forall m, In m banner ->
     In m (allPotentialBannerMovies c) /\ truthy (backdrop_path m) = true) /\
  List.NoDup (map id banner).
Proof.
  intros Hperm. cbv zeta. unfold bannerMovies.
  destruct (pick_sound (shuffle (allPotentialBannerMovies c)))
    as (Hlen & Hin & Hnd & _).
  destruct (pick_sound (allPotentialBannerMovies c)) as (Hlen' & Hin' & Hnd' & _).
  destruct (0 <? _)%nat.
  - split; [exact Hlen|]. split; [|exact Hnd].
    intros m Hm. destruct (Hin m Hm) as [H1 H2].
    split; [|exact H2]. apply (Permutation_in _ Hperm). exact H1.
  - split; [exact Hlen'|]. split; [exact Hin' | exact Hnd'].
Qed.

(** X12: the fallback of the banner set never contributes an item: the
    set is the one picked from the shuffled candidates, it is empty
    exactly when no candidate has a backdrop image, and so the banner is
    mounted exactly when some candidate has one. *)
Theorem banner_fallback_is_idle (shuffle : list Movie -> list Movie) (c : catalog) :
  Permutation (shuffle (allPotentialBannerMovies c)) (allPotentialBannerMovies c) ->
  bannerMovies shuffle c = pick (shuffle (allPotentialBannerMovies c)) /\
  (bannerMovies shuffle c = [] <->
     forall m, In m (allPotentialBannerMovies c) ->
               truthy (backdrop_path m) = false) /\
  (bannerMounted shuffle c = true <->
     exists m, In m (allPotentialBannerMovies c) /\
               truthy (backdrop_path m) = true).
Proof.
  intros Hperm.
  set (all := allPotentialBannerMovies c) in *.
  destruct (pick_sound (shuffle all)) as (_ & Hin & _ & Hnil).
  destruct (pick_sound all) as (_ & _ & _ & Hnil').
  assert (Hsame : (forall m, In m (shuffle all) -> truthy (backdrop_path m) = false)
                  <-> (forall m, In m all -> truthy (backdrop_path m) = false)).
  { split; intros H m Hm; apply H.
    - apply (Permutation_in _ (Permutation_sym Hperm)). exact Hm.
    - apply (Permutation_in _ Hperm). exact Hm. }
  assert (Heq : bannerMovies shuffle c = pick (shuffle all)).
  { unfold bannerMovies. fold all.
    destruct (pick (shuffle all)) as [|m ms] eqn:E; [|reflexivity].
    cbn. apply Hnil'. apply Hsame. apply Hnil. reflexivity. }
  assert (Hempty : bannerMovies shuffle c = [] <->
                   forall m, In m all -> truthy (backdrop_path m) = false).
  { rewrite Heq, Hnil. exact Hsame. }
  split; [exact Heq|]. split; [exact Hempty|].
  unfold bannerMounted. split.
  - intros Hpos. destruct (bannerMovies shuffle c) as [|m ms] eqn:E;
      [discriminate|].
    assert (Hm : In m (pick (shuffle all))) by (rewrite <- Heq; left; reflexivity).
    destruct (Hin m Hm) as [H1 H2]. exists m. split; [|exact H2].
    apply (Permutation_in _ Hperm). exact H1.
  - intros (m & Hm & Hb).
    destruct (bannerMovies shuffle c) as [|x xs] eqn:E; [|reflexivity].
    rewrite (proj1 Hempty eq_refl m Hm) in Hb. discriminate.
Qed.

End StartupFacts.

(** ** The search overlay under every event *)

Section OverlayRuns.

Import Navbar NavbarUI.

Lemma length_trim_start (q : utf16) :
  (List.length (trim_start q) <= List.length q)%nat.
Proof.
  induction q as [|c q IH]; cbn [trim_start]; [lia|].
  destruct (is_space c); cbn [List.length]; lia.
Qed.

Lemma length_trim (q : utf16) :
  (List.length (trim q) <= List.length q)%nat.
Proof.
  unfold trim. rewrite length_rev.
  pose proof (length_trim_start (rev (trim_start q))) as H.
  rewrite length_rev in H.
  pose proof (length_trim_start q). lia.
Qed.

Lemma trim_start_blank (q : utf16) :
  forallb is_space q = true -> trim_start q = [].
Proof.
  induction q as [|c q IH]; cbn [forallb trim_start]; [reflexivity|].
  intros H. apply andb_true_iff in H as [Hc Hq]. rewrite Hc. apply IH, Hq.
Qed.

(** What [trim_start] returns is empty or starts with a code unit that is
    not white space. *)
Lemma trim_start_head (q : utf16) :
  match trim_start q with
  | [] => True
  | c :: _ => is_space c = false
  end.
Proof.
  induction q as [|c q IH]; cbn [trim_start]; [exact I|].
  destruct (is_space c) eqn:E; [exact IH | exact E].
Qed.

(** A text that starts with a code unit that is not white space is kept
    whole by [trim_start]. *)
Lemma trim_start_kept (c : N) (q : utf16) :
  is_space c = false -> trim_start (c :: q) = c :: q.
Proof. intros H. cbn [trim_start]. rewrite H. reflexivity. Qed.

(** Beyond ASCII: two accented letters (U+00E9) are two code units, a
    no-break space (U+00A0) at the end is trimmed, three of them leave
    nothing, and one ideograph (U+65E5) is one code unit; none of these
    queries is searched for.  A letter outside the basic plane (U+1F600,
    a surrogate pair) counts for two, so two of them are. *)
Lemma length_test_beyond_ascii :
  searchable [0xE9; 0xE9]%N = false /\
  searchable [0x61; 0x62; 0xA0]%N = false /\
  searchable [0xA0; 0xA0; 0xA0]%N = false /\
  searchable [0x65E5]%N = false /\
  searchable [0xD83D; 0xDE00; 0xD83D; 0xDE00]%N = true.
Proof. repeat split. Qed.

(** X13: the length test lets a query through only if it holds at least
    three UTF-16 code units, and never a query made of white space alone,
    however long -- white space being what [trim] strips: the ASCII
    blanks, the no-break space, the byte order mark and the other Unicode
    spaces and line ends.  A query that passes holds a first and a last
    code unit that are not white space, with at least one more between
    them. *)
Theorem searchable_needs_three_code_units (q : utf16) :
  (searchable q = true -> (3 <= List.length q)%nat) /\
  (forallb is_space q = true -> searchable q = false) /\
  (searchable q = true ->
     exists (first last : N) (middle : utf16),
       trim q = first :: middle ++ [last] /\
       is_space first = false /\ is_space last = false /\ middle <> []).
Proof.
  split; [|split].
  - unfold searchable. intros H. apply Nat.ltb_lt in H.
    pose proof (length_trim q). lia.
  - intros H. unfold searchable, trim. rewrite (trim_start_blank q H).
    reflexivity.
  - unfold searchable, trim. intros H. apply Nat.ltb_lt in H.
    rewrite length_rev in H.
    pose proof (trim_start_head (rev (trim_start q))) as Hlast.
    destruct (trim_start (rev (trim_start q))) as [|z body] eqn:E;
      [cbn in H; lia|].
    (* [z] is the last code unit of the trimmed text; find the first *)
    assert (Hfirst : match rev (z :: body) with
                     | [] => True
                     | c :: _ => is_space c = false
                     end).
    { assert (Hsuffix : exists pre, rev (trim_start q) = pre ++ z :: body).
      { clear -E. induction (rev (trim_start q)) as [|c l IH].
        - discriminate.
        - cbn [trim_start] in E. destruct (is_space c).
          + destruct (IH E) as [pre Hpre]. exists (c :: pre).
            rewrite Hpre. reflexivity.
          + exists []. exact E. }
      destruct Hsuffix as [pre Hpre].
      apply (f_equal (@rev N)) in Hpre. rewrite rev_involutive in Hpre.
      rewrite rev_app_distr in Hpre.
      pose proof (trim_start_head q) as Hq. rewrite Hpre in Hq.
      destruct (rev (z :: body)) as [|c rest] eqn:Er; [exact I|].
      exact Hq. }
    cbn [rev] in *. cbn [List.length] in H.
    destruct (rev body) as [|first rest] eqn:Eb.
    + apply (f_equal (@List.length N)) in Eb. rewrite length_rev in Eb.
      cbn in Eb. lia.
    + exists first, z, rest. cbn [app] in *.
      split; [reflexivity|]. split; [exact Hfirst|]. split; [exact Hlast|].
      intros ->. apply (f_equal (@List.length N)) in Eb.
      rewrite length_rev in Eb. cbn in Eb. lia.
Qed.

Lemma setSearchQuery_keeps (q : utf16) (s : state) :
  timer_current s -> calls_searchable s ->
  timer_current (setSearchQuery q s) /\ calls_searchable (setSearchQuery q s).
Proof.
  intros Ht Hc. unfold setSearchQuery.
  destruct (utf16_eqb q (searchQuery s)); [auto|].
  split; [|exact Hc].
  unfold timer_current, debounce_ms. cbn. repeat split; lia.
Qed.

Lemma closeSearchUI_keeps (s : state) :
  timer_current s -> calls_searchable s ->
  timer_current (closeSearchUI s) /\ calls_searchable (closeSearchUI s).
Proof.
  intros Ht Hc. unfold closeSearchUI.
  destruct (setSearchQuery_keeps [] (set_showSearch false s))
    as [Ht' Hc']; [destruct s; exact Ht | destruct s; exact Hc |].
  destruct (setSearchQuery [] (set_showSearch false s)).
  split; [exact Ht' | exact Hc'].
Qed.

Lemma act_keeps (s : state) (a : action) :
  timer_current s -> calls_searchable s ->
  timer_current (act s a) /\ calls_searchable (act s a).
Proof.
  intros Ht Hc. destruct a as [|q|ms| |r|r| |result tv mv|]; cbn [act].
  - destruct s; auto.
  - apply setSearchQuery_keeps; assumption.
  - unfold elapse. unfold timer_current in Ht.
    destruct (searchTimeout s) as [[q remaining]|] eqn:E; [|
      split; [unfold timer_current; rewrite E; exact I | exact Hc]].
    destruct Ht as [Hq Hr].
    destruct (Nat.leb_spec remaining ms).
    + unfold timeoutCallback. destruct (searchable q) eqn:Hs.
      * split; [destruct s; exact I|].
        unfold calls_searchable in *. destruct s; cbn in *.
        apply Forall_app. split; [exact Hc|]. constructor; [exact Hs|constructor].
      * split; [destruct s; exact I | destruct s; exact Hc].
    + split; [|destruct s; exact Hc].
      destruct s; unfold timer_current; cbn in *. split; [exact Hq | lia].
  - unfold handleSearch. destruct (searchable (searchQuery s)) eqn:Hs; [|auto].
    split; [destruct s; exact Ht|].
    unfold calls_searchable in *. destruct s; cbn in *.
    apply Forall_app. split; [exact Hc|]. constructor; [exact Hs|constructor].
  - destruct r; destruct s; auto.
  - destruct r; destruct s; auto.
  - apply closeSearchUI_keeps; assumption.
  - assert (Hcaught : timer_current (caught s) /\ calls_searchable (caught s))
      by (destruct s; auto).
    assert (Hclose : forall s0, timer_current s0 -> calls_searchable s0 ->
              timer_current (closeSearchUI s0) /\ calls_searchable (closeSearchUI s0))
      by (intros; apply closeSearchUI_keeps; assumption).
    unfold handleMovieClick.
    destruct (String.eqb (mediaTypeOf result) "tv").
    + destruct tv as [|response]; [exact Hcaught|].
      destruct (negb (ok response)); [exact Hcaught|].
      destruct (json response) as [|[d|]]; try exact Hcaught.
      apply Hclose; destruct s; assumption.
    + destruct mv as [|[d|]]; [exact Hcaught| |].
      * destruct (truthy (id d)); apply Hclose; destruct s; assumption.
      * apply Hclose; destruct s; assumption.
  - destruct s; auto.
Qed.

(** X14: whatever happens to the search overlay -- typing, waiting,
    submitting, results arriving, dismissals, clicks on results -- no
    search call is ever issued for a query of trimmed length 2 or less,
    and a pending debounce timeout always belongs to the text the input
    holds at that moment and is due within 500 ms. *)
Theorem overlay_never_searches_short (acts : list action) :
  let s := play mounted acts in
  Forall (fun q => searchable q = true) (calls s) /\
  match searchTimeout s with
  | Some (q, remaining) =>
      q = searchQuery s /\ (0 < remaining <= debounce_ms)%nat
  | None => True
  end.
Proof.
  cbv zeta.
  assert (H : forall acts s, timer_current s -> calls_searchable s ->
            timer_current (play s acts) /\ calls_searchable (play s acts)).
  { clear acts. induction acts as [|a acts IH]; intros s Ht Hc; [auto|].
    cbn [play fold_left]. destruct (act_keeps s a Ht Hc) as [Ht' Hc'].
    apply IH; assumption. }
  destruct (H acts mounted) as [Ht Hc].
  - unfold timer_current, mounted, debounce_ms. cbn. repeat split; lia.
  - constructor.
  - split; [exact Hc | exact Ht].
Qed.

(** X15: a submit does not cancel the debounce: typing a searchable
    query, submitting it at once and then leaving the input alone for
    500 ms issues the same search twice. *)
Theorem submit_then_debounce_searches_twice (s : state) (q : utf16) (ms : nat) :
  q <> searchQuery s -> searchable q = true -> (debounce_ms <= ms)%nat ->
  calls (run s [Keystroke q; Submit; Wait ms]) = calls s ++ [q; q].
Proof.
  intros Hne Hs Hms. apply utf16_eqb_neq in Hne.
  cbn [run fold_left step].
  rewrite (onChange_changed q s Hne).
  unfold handleSearch. cbn [searchQuery]. rewrite Hs.
  erewrite elapse_due by (cbn; eauto).
  unfold timeoutCallback. rewrite Hs. cbn.
  rewrite <- app_assoc. reflexivity.
Qed.

(** X16: a dismissal (close button, Escape, outside click) hides the
    overlay, empties the query and the result list, and calls off the
    pending search: however long one waits afterwards, no call is
    issued. *)
Theorem dismissal_calls_off_search (s : state) (ms : nat) :
  timer_current s ->
  let s' := elapse ms (dismiss s) in
  calls s' = calls s /\ showSearch s' = false /\
  searchQuery s' = [] /\ searchResults s' = [].
Proof.
  intros Ht. cbv zeta. destruct s as [sh q rs sg sel t c e].
  unfold timer_current in Ht. cbn [searchTimeout searchQuery] in Ht.
  unfold dismiss, setSearchQuery, set_showSearch, set_searchResults.
  cbn [showSearch searchQuery searchResults isSearching selectedMovie
       searchTimeout calls errors].
  destruct q as [|ch q]; cbn [utf16_eqb].
  - destruct t as [[q' remaining]|]; [|unfold elapse; cbn; auto].
    destruct Ht as [-> _]. unfold elapse. cbn [searchTimeout].
    destruct (remaining <=? ms)%nat; cbn; auto.
  - unfold elapse. cbn [searchTimeout].
    destruct (debounce_ms <=? ms)%nat; cbn; auto.
Qed.

(** X17: a search result is fetched as a series exactly when its
    [media_type] is ['tv'], or it has no usable [media_type] and no
    usable [title]; every other result -- a person, say -- goes through
    [fetchMovieDetails]. *)
Theorem result_fetched_as_series_iff (result : SearchResult) :
  mediaTypeOf result = "tv"%string <->
  media_type result = val "tv"%string \/
  (truthy (media_type result) = false /\ truthy (title result) = false).
Proof.
  unfold mediaTypeOf.
  destruct (media_type result) as [| |t] eqn:Em.
  - destruct (truthy (title result)); split.
    + discriminate.
    + intros [H|[_ H]]; discriminate.
    + intros _. right. split; reflexivity.
    + reflexivity.
  - destruct (truthy (title result)); split.
    + discriminate.
    + intros [H|[_ H]]; discriminate.
    + intros _. right. split; reflexivity.
    + reflexivity.
  - change (truthy (val t)) with (truthy t).
    destruct (truthy t) eqn:Et.
    + split; [intros ->; left; reflexivity|].
      intros [H|[H _]]; [injection H as ->; reflexivity | discriminate].
    + destruct t; [|discriminate Et].
      destruct (truthy (title result)); split.
      * discriminate.
      * intros [H|[_ H]]; discriminate.
      * intros _. right. split; reflexivity.
      * reflexivity.
Qed.

End OverlayRuns.

(** ** The details view: hydrated items, the selectors, the player URL *)

Section DetailsFacts.

Import MovieModal ModalUI.

Lemma truthy_string_nonempty (i : string) :
  truthy i = true <-> i <> EmptyString.
Proof. destruct i; cbn; split; congruence. Qed.

(** With one, every form of the URL starts with the player's address. *)
Lemma id_gives_url (movie : Movie) (st : state) :
  truthy (id movie) = true -> fst (getEmbedUrl movie st) <> EmptyString.
Proof.
  unfold getEmbedUrl. destruct (id movie) as [| |n]; try discriminate.
  change (truthy (val n)) with (truthy n). intros ->. cbn [negb].
  destruct (isTV st); [|discriminate].
  destruct (resolveImdbId movie) as [| |i]; try discriminate.
  destruct (truthy i); discriminate.
Qed.

(** X18: the frame gets an empty URL exactly when the item has no usable
    catalog id (missing, null or zero), and then no warning is emitted,
    series or not. *)
Theorem embed_url_empty_iff (movie : Movie) (st : state) :
  (fst (getEmbedUrl movie st) = EmptyString <-> truthy (id movie) = false) /\
  (truthy (id movie) = false -> getEmbedUrl movie st = (EmptyString, [])).
Proof.
  split; [|apply no_id_no_url].
  split.
  - intros Hurl. destruct (truthy (id movie)) eqn:E; [|reflexivity].
    exfalso. exact (id_gives_url movie st E Hurl).
  - intros Hid. rewrite (no_id_no_url movie st Hid). reflexivity.
Qed.

(** X19: what the click handlers make of a fetched series.  The patch is
    idempotent; the patched object is always classified as a series by
    the details view; and whenever one of its two IMDb identifiers is
    usable, the explicit [imdb_id] field holds the one the player URL
    is built from, so that the order of the two lookups cannot matter for
    a series opened by a click. *)
Theorem hydrated_series (details : Movie) (st : state) :
  mapTV (mapTV details) = mapTV details /\
  isTV (movieEffect (mapTV details) st) = true /\
  (truthy (resolveImdbId (mapTV details)) = true ->
     resolveImdbId (mapTV details) = imdb_id (mapTV details)) /\
  (truthy (resolveImdbId (mapTV details)) = false ->
     truthy (imdb_id (mapTV details)) = false).
Proof.
  split; [|split; [apply patched_is_series|split]].
  - destruct details as [i t n mt pp bp fa ns se im ex].
    unfold mapTV.
    cbn [id title name media_type poster_path backdrop_path first_air_date
         number_of_seasons seasons imdb_id external_ids].
    f_equal.
    + destruct (truthy n) eqn:En; cbn [andb]; [|reflexivity].
      destruct (truthy t) eqn:Et; cbn [negb]; [rewrite Et; reflexivity|].
      rewrite En. reflexivity.
    + destruct ex as [| |e]; try reflexivity.
      destruct (truthy (ext_imdb_id e)) eqn:Ee; rewrite ?Ee; reflexivity.
  - unfold resolveImdbId, or_else, nested_imdb_id, mapTV.
    cbn [external_ids imdb_id].
    destruct (external_ids details) as [| |e]; try reflexivity.
    destruct (truthy (ext_imdb_id e)) eqn:Ee; rewrite ?Ee; reflexivity.
  - unfold resolveImdbId, or_else, nested_imdb_id, mapTV.
    cbn [external_ids imdb_id].
    destruct (external_ids details) as [| |e]; try (intros H; exact H).
    destruct (truthy (ext_imdb_id e)) eqn:Ee; rewrite ?Ee;
      intros H; [congruence | exact H].
Qed.

Lemma elem_of_upto (n x : Z) : In x (upto n) <-> 1 <= x <= n.
Proof.
  unfold upto. rewrite in_map_iff. split.
  - intros (k & <- & Hk). apply in_seq in Hk. lia.
  - intros H. exists (Z.to_nat x). split; [lia|]. apply in_seq. lia.
Qed.

(** X20: the keys of the per-season object are season numbers above 0
    that occur in the seasons list, and the counts stored are never
    zero: season 0 ("specials") and malformed entries leave no key. *)
Theorem season_map_keys (movie : Movie) (k c : Z) :
  episodesPerSeason (opened movie) !! k = Some c ->
  0 < k /\ c <> 0 /\
  exists l season,
    seasons movie = val l /\ In season l /\
    season_number season = val k /\
    c = or_default (episode_count season) 10.
Proof.
  unfold opened, movieEffect. rewrite season_guard.
  destruct (truthy (number_of_seasons movie));
    cbn [episodesPerSeason initial]; [|rewrite lookup_empty; discriminate].
  unfold buildEpisodeCount.
  destruct (seasons movie) as [| |l]; try (rewrite lookup_empty; discriminate).
  rewrite recorded_count.
  destruct (season_entry l k) as [e|] eqn:E; [|rewrite lookup_empty; discriminate].
  intros H. injection H as <-.
  unfold season_entry in E. apply find_some in E as [Hin Hk].
  apply in_rev in Hin.
  destruct (season_number e) as [| |n] eqn:En; try discriminate.
  apply andb_true_iff in Hk as [Hpos Heq].
  apply Z.gtb_gt in Hpos. apply Z.eqb_eq in Heq. subst n.
  split; [lia|]. split.
  - pose proof (or_default_truthy (episode_count e)) as Ht.
    unfold truthy, truthy_Z in Ht. apply negb_true_iff, Z.eqb_neq in Ht.
    exact Ht.
  - exists l, e. auto.
Qed.

(** X21: when no listed episode count is negative, the episode selector
    is never empty, and the episode a season change resets to -- episode
    1 -- is always one of the options offered for the new season. *)
Theorem reset_episode_is_offered (movie : Movie) (k : Z) :
  counts_nonnegative movie ->
  let st := changeSeason k (opened movie) in
  1 <= episodeCount st /\ In (selectedEpisode st) (episodeOptions st).
Proof.
  intros Hnn. cbv zeta.
  assert (Hc : 1 <= episodeCount (changeSeason k (opened movie))).
  { unfold episodeCount. cbn [changeSeason episodesPerSeason selectedSeason].
    destruct (episodesPerSeason (opened movie) !! k) as [c|] eqn:E; [|lia].
    unfold opened, movieEffect in E. rewrite season_guard in E.
    destruct (truthy (number_of_seasons movie));
      cbn [episodesPerSeason initial] in E;
      [|rewrite lookup_empty in E; discriminate].
    unfold buildEpisodeCount in E. unfold counts_nonnegative in Hnn.
    destruct (seasons movie) as [| |l];
      try (rewrite lookup_empty in E; discriminate).
    rewrite recorded_count in E.
    destruct (season_entry l k) as [e|] eqn:Ee;
      [|rewrite lookup_empty in E; discriminate].
    injection E as <-. rewrite or_default_truthy.
    unfold season_entry in Ee. apply find_some in Ee as [Hin _].
    apply in_rev in Hin.
    rewrite List.Forall_forall in Hnn. specialize (Hnn e Hin).
    pose proof (or_default_truthy (episode_count e)) as Ht.
    unfold truthy, truthy_Z in Ht. apply negb_true_iff, Z.eqb_neq in Ht.
    destruct (episode_count e) as [| |n]; cbn in *; try lia.
    unfold truthy, truthy_Z in *. destruct (Z.eqb_spec n 0); cbn in *; lia. }
  split; [exact Hc|].
  unfold episodeOptions. apply elem_of_upto.
  cbn [changeSeason selectedEpisode]. lia.
Qed.

(** X22: the effect on a new [movie] never resets the selection.  If the
    view is switched to a series with fewer seasons than the season
    selected before, the selected season and episode stay as they were
    and the selected season is none of the options offered.  If the
    series has a usable catalog id, the player URL still carries that
    season and that episode, in either of its forms: on the IMDb
    identifier when the series has one, on the catalog id with the
    fallback warning when it has none. *)
Theorem switch_keeps_selection (movie : Movie) (st : state) (n : Z) :
  number_of_seasons movie = val n -> 0 < n < selectedSeason st ->
  let st' := movieEffect movie st in
  selectedSeason st' = selectedSeason st /\
  selectedEpisode st' = selectedEpisode st /\
  seasonOptions st' = upto n /\
  ~ In (selectedSeason st') (seasonOptions st') /\
  (forall tmdb, id movie = val tmdb -> tmdb <> 0 ->
     (forall i, resolveImdbId movie = val i -> i <> EmptyString ->
        getEmbedUrl movie st'
        = (embed_tv_imdb i (selectedSeason st) (selectedEpisode st), [])) /\
     (truthy (resolveImdbId movie) = false ->
        getEmbedUrl movie st'
        = (embed_tv_tmdb tmdb (selectedSeason st) (selectedEpisode st),
           [fallback_warning]))).
Proof.
  intros Hn Hlt. cbv zeta.
  assert (Hg : truthy (number_of_seasons movie) = true).
  { rewrite Hn. change (truthy (val n)) with (negb (n =? 0)).
    destruct (Z.eqb_spec n 0); [lia | reflexivity]. }
  assert (Hst : movieEffect movie st
                = {| showPlayer := false; isTV := true;
                     selectedSeason := selectedSeason st;
                     selectedEpisode := selectedEpisode st;
                     totalSeasons := n;
                     episodesPerSeason := buildEpisodeCount movie |}).
  { unfold movieEffect. rewrite season_guard, Hg.
    assert (HTV : isTVShow movie = true)
      by (unfold isTVShow; rewrite Hn; reflexivity).
    rewrite HTV, Hn. reflexivity. }
  rewrite Hst. unfold seasonOptions.
  cbn [selectedSeason selectedEpisode totalSeasons].
  repeat (split; [reflexivity|]).
  split; [rewrite elem_of_upto; lia|].
  intros tmdb Hid Htmdb.
  match goal with
  | |- context [getEmbedUrl movie ?s0] =>
      destruct (series_url movie s0 tmdb Hid Htmdb eq_refl) as [Himdb Hnone]
  end.
  cbn [selectedSeason selectedEpisode] in Himdb, Hnone.
  split; [|exact Hnone].
  intros i Hi Hne. apply Himdb; [exact Hi|].
  apply truthy_string_nonempty, Hne.
Qed.

End DetailsFacts.

(** ** Clicks that succeed *)

Section ClickFacts.

(** X23: the root view never opens the details of an item without a
    usable catalog id: whatever the fetch returns, an item the click
    handler selects has one, so its player URL is never empty; and an item
    opened as a series carries the ['tv'] marker and is classified as a
    series by the details view. *)
Theorem root_click_selects_usable (movieId : Z) (mediaType : option string)
    (tv : promise Response) (mv : promise (option Movie)) (s : App.state)
    (m : Movie) (st : MovieModal.state) :
  App.selectedMovie (App.handleMovieClick movieId mediaType tv mv s) = Some m ->
  truthy (id m) = true /\
  fst (MovieModal.getEmbedUrl m st) <> EmptyString /\
  (mediaType = Some "tv"%string ->
     media_type m = val "tv"%string /\
     MovieModal.isTV (MovieModal.movieEffect m st) = true).
Proof.
  unfold App.handleMovieClick, App.clickSettle, App.clickStart.
  destruct (App.hydrate mediaType tv mv) as [d|] eqn:E; cbn; [|discriminate].
  intros H. injection H as ->.
  unfold App.hydrate in E. apply bind_Some in E as (d & Hd & E).
  destruct (negb (truthy (id d))) eqn:Hid; [discriminate|].
  injection E as ->. apply negb_false_iff in Hid.
  split; [exact Hid|]. split.
  - apply id_gives_url. exact Hid.
  - intros ->. cbn in Hd.
    destruct tv as [|response]; [discriminate|].
    destruct (negb (ok response)); [discriminate|].
    destruct (json response) as [|[details|]]; try discriminate.
    injection Hd as <-.
    split; [reflexivity|]. apply patched_is_series.
Qed.

(** X24: a search result fetched as a series is opened whatever the
    response holds: the patched object is selected, the overlay is closed
    and reset, nothing is logged, and the details view classifies the
    object as a series.  No identifier is asked for on this path, and
    with none the player URL is empty. *)
Theorem series_result_is_opened (result : Navbar.SearchResult)
    (details : Movie) (mv : promise (option Movie)) (s : Navbar.state)
    (st : MovieModal.state) :
  Navbar.mediaTypeOf result = "tv"%string ->
  let s' := Navbar.handleMovieClick result
              (Resolves {| ok := true; json := Resolves (Some details) |}) mv s in
  Navbar.selectedMovie s' = Some (mapTV details) /\
  Navbar.showSearch s' = false /\
  Navbar.searchQuery s' = [] /\
  Navbar.searchResults s' = [] /\
  Navbar.errors s' = Navbar.errors s /\
  MovieModal.isTV (MovieModal.movieEffect (mapTV details) st) = true /\
  (truthy (id details) = false ->
     MovieModal.getEmbedUrl (mapTV details) st = (EmptyString, [])).
Proof.
  intros Hkind. cbv zeta. unfold Navbar.handleMovieClick.
  rewrite Hkind. cbn [String.eqb Ascii.eqb Bool.eqb ok json negb].
  destruct s as [sh q rs sg sel t c e].
  unfold Navbar.closeSearchUI, Navbar.setSearchQuery, Navbar.set_showSearch,
    Navbar.set_searchResults, Navbar.set_selectedMovie.
  cbn [Navbar.showSearch Navbar.searchQuery Navbar.searchResults
       Navbar.isSearching Navbar.selectedMovie Navbar.searchTimeout
       Navbar.calls Navbar.errors].
  split; [destruct q; reflexivity|].
  split; [destruct q; reflexivity|].
  split; [destruct q; reflexivity|].
  split; [destruct q; reflexivity|].
  split; [destruct q; reflexivity|].
  split; [apply patched_is_series|].
  intros Hid. apply no_id_no_url. exact Hid.
Qed.

End ClickFacts.

(** ** Pausing, and the kind a card is opened with *)

Section PauseFacts.

Import Banner BannerUI.

Variable L : Z.

(** X25: opening the details from the carousel and closing them again
    resumes auto-play exactly when [document.querySelector('.group:hover')]
    finds no element at that moment ([hovering] is its outcome; the
    selector also matches a hovered row, not the carousel alone), there
    is more than one slide and no transition is in progress -- whether
    or not the carousel was paused before. *)
Theorem close_modal_resumes_autoplay (s : state) (hovering : bool) :
  autoPlayActive L (handleCloseModal hovering (handleInfoClick s))
  = negb hovering && (L >? 1) && negb (isTransitioning s).
Proof.
  destruct s as [i p t d pa sm ts].
  unfold handleCloseModal, handleInfoClick, autoPlayActive, set_isPaused,
    set_showModal.
  destruct hovering; cbn; [reflexivity|].
  destruct (L >? 1); reflexivity.
Qed.

(** X26: a transition started at rest on a banner of two slides or more
    first sets the direction to ['left'], whichever button started it:
    until the index changes 200 ms later the two indices are equal, and
    the effect takes "not greater" for leftward. *)
Theorem transition_starts_leftward (s : state) :
  2 <= L -> 0 <= currentIndex s < L ->
  isTransitioning s = false -> timers s = [] ->
  slideDirection (nextSlide L s) = SlideLeft /\
  slideDirection (prevSlide L s) = SlideLeft /\
  currentIndex (nextSlide L s) = currentIndex s /\
  currentIndex (prevSlide L s) = currentIndex s.
Proof.
  intros HL Hi Ht Hts. destruct s as [i p t d pa sm ts].
  cbn [currentIndex isTransitioning timers] in *. subst.
  unfold nextSlide, prevSlide. cbn [isTransitioning].
  rewrite !begin_at_rest. cbn [slideDirection currentIndex].
  unfold direction_of. rewrite !Z.gtb_ltb, !Z.ltb_irrefl.
  destruct (Z.eqb_spec i (L - 1)), (Z.eqb_spec i 0); cbn [andb];
    repeat split; reflexivity || lia.
Qed.

End PauseFacts.

Section CardFacts.

Import MovieRow.

(** X27: a card is opened as a series exactly when its item's
    [media_type] is ['tv'], or the item has no usable [media_type] and
    either the row is typed ['tv'] or the row is untyped and the item has
    a [name] and no [title]. *)
Theorem card_opened_as_series_iff (rowType : option string) (movie : Movie) :
  mediaTypeOf rowType movie = "tv"%string <->
  media_type movie = val "tv"%string \/
  (truthy (media_type movie) = false /\
   (rowType = Some "tv"%string \/
    ((rowType = None \/ rowType = Some EmptyString) /\
     truthy (name movie) = true /\ truthy (title movie) = false))).
Proof.
  unfold mediaTypeOf.
  assert (Hinf : (if truthy (name movie) && negb (truthy (title movie))
                  then "tv"%string else "movie"%string) = "tv"%string
                 <-> truthy (name movie) = true /\ truthy (title movie) = false).
  { destruct (truthy (name movie)), (truthy (title movie)); cbn;
      split; try discriminate; try tauto; intros [? ?]; discriminate. }
  assert (Hrow : match rowType with
                 | Some t =>
                     if truthy t then t
                     else if truthy (name movie) && negb (truthy (title movie))
                          then "tv"%string else "movie"%string
                 | None =>
                     if truthy (name movie) && negb (truthy (title movie))
                     then "tv"%string else "movie"%string
                 end = "tv"%string
                 <-> rowType = Some "tv"%string \/
                     ((rowType = None \/ rowType = Some EmptyString) /\
                      truthy (name movie) = true /\ truthy (title movie) = false)).
  { destruct rowType as [[|c t]|].
    - cbn [truthy truthy_string]. rewrite Hinf. split.
      + intros H. right. split; [right; reflexivity | exact H].
      + intros [H|[_ H]]; [discriminate | exact H].
    - change (truthy (String c t)) with true. cbn iota. split.
      + intros ->. left. reflexivity.
      + intros [H|[[H|H] _]]; [injection H as -> ->; reflexivity | | ];
          discriminate.
    - rewrite Hinf. split.
      + intros H. right. split; [left; reflexivity | exact H].
      + intros [H|[_ H]]; [discriminate | exact H]. }
  destruct (media_type movie) as [| |t].
  - rewrite Hrow. split; [intros H; right; split; [reflexivity | exact H]|].
    intros [H|[_ H]]; [discriminate | exact H].
  - rewrite Hrow. split; [intros H; right; split; [reflexivity | exact H]|].
    intros [H|[_ H]]; [discriminate | exact H].
  - change (truthy (val t)) with (truthy t). destruct (truthy t) eqn:Et.
    + split; [intros ->; left; reflexivity|].
      intros [H|[H _]]; [injection H as ->; reflexivity | discriminate].
    + destruct t; [|discriminate Et]. rewrite Hrow.
      split; [intros H; right; split; [reflexivity | exact H]|].
      intros [H|[_ H]]; [discriminate | exact H].
Qed.

End CardFacts.

Lemma carousel_stays_well_formed_witness :
  let s := BannerUI.run 3 Banner.initial
             [BannerUI.NextArrow; BannerUI.Timeout; BannerUI.PrevArrow;
              BannerUI.Indicator 2; BannerUI.Timeout] in
  0 <= Banner.currentIndex s < 3 /\
  0 <= Banner.prevIndex s < 3 /\
  (List.length (Banner.timers s) <= 1)%nat /\
  (Banner.isTransitioning s = true <-> Banner.timers s <> []).
Proof. apply (carousel_stays_well_formed 3). lia. Defined.

Lemma two_timeouts_settle_witness :
  let s := Banner.fire 3 (Banner.fire 3
             (BannerUI.run 3 Banner.initial
                [BannerUI.MouseEnter; BannerUI.NextArrow])) in
  Banner.isTransitioning s = false /\ Banner.timers s = [].
Proof. apply (two_timeouts_settle 3). lia. Defined.

Lemma open_modal_freezes_slide_witness :
  Banner.currentIndex
    (BannerUI.run 4 (BannerUI.handleInfoClick (Banner.resting 2 1 Banner.SlideRight))
       [BannerUI.MouseLeave; BannerUI.IntervalTick; BannerUI.Timeout;
        BannerUI.IntervalTick])
  = 2.
Proof.
  exact (proj1 (open_modal_freezes_slide 4
                  (BannerUI.handleInfoClick (Banner.resting 2 1 Banner.SlideRight))
                  [BannerUI.MouseLeave; BannerUI.IntervalTick; BannerUI.Timeout;
                   BannerUI.IntervalTick]
                  eq_refl eq_refl eq_refl)).
Defined.

Lemma single_item_never_moves_witness :
  let s := BannerUI.run 1 Banner.initial
             [BannerUI.NextArrow; BannerUI.IntervalTick; BannerUI.Indicator 0;
              BannerUI.Timeout] in
  Banner.currentIndex s = 0 /\ Banner.isTransitioning s = false /\
  Banner.timers s = [] /\ Banner.slideDirection s = Banner.SlideRight.
Proof. apply (single_item_never_moves 1). lia. Defined.

Lemma three_slides_follow_the_button_witness :
  let s := Banner.resting 2 1 Banner.SlideLeft in
  Banner.currentIndex (Banner.advance 3 s) = (2 + 1) mod 3 /\
  Banner.slideDirection (Banner.advance 3 s) = Banner.SlideRight /\
  Banner.currentIndex (Banner.retreat 3 s) = (2 - 1 + 3) mod 3 /\
  Banner.slideDirection (Banner.retreat 3 s) = Banner.SlideLeft.
Proof.
  apply (three_slides_follow_the_button 3 (Banner.resting 2 1 Banner.SlideLeft));
    cbn; (lia || reflexivity).
Defined.

Lemma advance_retreat_round_trip_witness :
  let s := Banner.resting 0 0 Banner.SlideRight in
  Banner.currentIndex (Banner.retreat 2 (Banner.advance 2 s)) = 0 /\
  Banner.currentIndex (Banner.advance 2 (Banner.retreat 2 s)) = 0.
Proof.
  apply (advance_retreat_round_trip 2 (Banner.resting 0 0 Banner.SlideRight));
    cbn; (lia || reflexivity).
Defined.

Lemma advances_cycle_witness :
  let s := Banner.resting 3 2 Banner.SlideRight in
  Banner.currentIndex (BannerUI.advances 5 4 s) = (3 + 4) mod 5 /\
  Banner.currentIndex (BannerUI.advances 5 (Z.to_nat 5) s) = 3.
Proof.
  apply (advances_cycle 5 4 (Banner.resting 3 2 Banner.SlideRight));
    cbn; (lia || reflexivity).
Defined.

Lemma jumpTo_lands_witness :
  let s' := Banner.jumpTo 4 3 (Banner.resting 0 1 Banner.SlideRight) in
  Banner.currentIndex s' = 3 /\ Banner.slideDirection s' = Banner.SlideLeft.
Proof.
  pose proof (jumpTo_lands 4 (Banner.resting 0 1 Banner.SlideRight) 3
                ltac:(discriminate) eq_refl eq_refl) as H.
  cbv zeta in H. destruct H as (Hi & _ & _ & _ & Hd).
  split; [exact Hi|].
  destruct (Banner.slideDirection
              (Banner.jumpTo 4 3 (Banner.resting 0 1 Banner.SlideRight)));
    [reflexivity|].
  exfalso. destruct (proj1 Hd eq_refl) as [[H _] | [_ H]];
    [discriminate H | apply H; split; reflexivity].
Defined.

Lemma startup_fills_each_list_witness :
  ~ In Rejects (App.requests MoreSamples.one_null_listing) /\
  App.popularMovies
    (App.lists (App.fetchData MoreSamples.one_null_listing App.initial))
  = [Samples.batman] /\
  App.popularTV
    (App.lists (App.fetchData MoreSamples.one_null_listing App.initial))
  = [].
Proof.
  assert (H : ~ In Rejects (App.requests MoreSamples.one_null_listing)).
  { cbn. intros [H|[H|[H|[H|[H|[H|[H|[H|[]]]]]]]]]; discriminate H. }
  split; [exact H|].
  destruct (startup_fills_each_list MoreSamples.one_null_listing App.initial
              (fun _ => true) H) as (Hl & _).
  rewrite Hl. split; reflexivity.
Defined.

Lemma banner_set_sound_witness :
  let banner := AppUI.bannerMovies (@rev Movie) MoreSamples.overlapping in
  (List.length banner <= 5)%nat /\
  (forall m, In m banner ->
     In m (AppUI.allPotentialBannerMovies MoreSamples.overlapping) /\
     truthy (backdrop_path m) = true) /\
  List.NoDup (map id banner).
Proof.
  apply (banner_set_sound (@rev Movie) MoreSamples.overlapping).
  apply Permutation_sym, Permutation_rev.
Defined.

Lemma banner_fallback_is_idle_witness :
  AppUI.bannerMovies (@rev Movie) MoreSamples.overlapping
  = AppUI.pick (rev (AppUI.allPotentialBannerMovies MoreSamples.overlapping)).
Proof.
  apply (banner_fallback_is_idle (@rev Movie) MoreSamples.overlapping).
  apply Permutation_sym, Permutation_rev.
Defined.

Lemma submit_then_debounce_searches_twice_witness :
  Navbar.calls
    (Navbar.run Navbar.mounted
       [Navbar.Keystroke (units "batman"); Navbar.Submit; Navbar.Wait 500])
  = [units "batman"; units "batman"].
Proof.
  exact (submit_then_debounce_searches_twice Navbar.mounted (units "batman") 500
           ltac:(discriminate) eq_refl ltac:(reflexivity)).
Defined.

Lemma dismissal_calls_off_search_witness :
  let s := Navbar.onChange (units "batman") Navbar.mounted in
  NavbarUI.timer_current s /\
  Navbar.calls (Navbar.elapse 900 (Navbar.dismiss s)) = [].
Proof.
  cbv zeta.
  assert (H : NavbarUI.timer_current
                (Navbar.onChange (units "batman") Navbar.mounted)).
  { split; [reflexivity|]. unfold Navbar.debounce_ms. lia. }
  split; [exact H|].
  exact (proj1 (dismissal_calls_off_search _ 900 H)).
Defined.

Lemma season_map_keys_witness :
  MovieModal.episodesPerSeason (MovieModal.opened Samples.three_seasons) !! 1
  = Some 8 /\
  0 < 1 /\ 8 <> 0.
Proof.
  assert (H : MovieModal.episodesPerSeason
                (MovieModal.opened Samples.three_seasons) !! 1 = Some 8)
    by reflexivity.
  split; [exact H|].
  destruct (season_map_keys Samples.three_seasons 1 8 H) as (Hk & Hc & _).
  split; [exact Hk | exact Hc].
Defined.

Lemma reset_episode_is_offered_witness :
  ModalUI.counts_nonnegative Samples.announced_season /\
  In 1 (MovieModal.episodeOptions
          (MovieModal.changeSeason 2 (MovieModal.opened Samples.announced_season))).
Proof.
  assert (H : ModalUI.counts_nonnegative Samples.announced_season).
  { unfold ModalUI.counts_nonnegative.
    cbn [seasons Samples.announced_season].
    apply List.Forall_cons; [cbn; lia|]. apply List.Forall_cons; [cbn; lia|].
    apply List.Forall_nil. }
  split; [exact H|].
  exact (proj2 (reset_episode_is_offered Samples.announced_season 2 H)).
Defined.

Lemma switch_keeps_selection_witness :
  let st' := MovieModal.movieEffect Samples.three_seasons
               MoreSamples.deep_into_a_series in
  MovieModal.selectedSeason st' = 5 /\
  MovieModal.seasonOptions st' = [1; 2; 3] /\
  MovieModal.getEmbedUrl Samples.three_seasons st'
  = ("https://vidsrc.in/embed/tv?tmdb=42&season=5&episode=7"%string,
     [MovieModal.fallback_warning]).
Proof.
  cbv zeta.
  destruct (switch_keeps_selection Samples.three_seasons
              MoreSamples.deep_into_a_series 3 eq_refl ltac:(cbn; lia))
    as (Hs & _ & Ho & _ & Hu).
  split; [exact Hs|]. split; [exact Ho|].
  exact (proj2 (Hu 42 eq_refl ltac:(discriminate)) eq_refl).
Defined.

Lemma root_click_selects_usable_witness :
  App.selectedMovie
    (App.handleMovieClick 268 (Some "movie"%string) Rejects
       (Resolves (Some Samples.batman)) App.initial)
  = Some Samples.batman /\
  truthy (id Samples.batman) = true.
Proof.
  assert (H : App.selectedMovie
                (App.handleMovieClick 268 (Some "movie"%string) Rejects
                   (Resolves (Some Samples.batman)) App.initial)
              = Some Samples.batman) by reflexivity.
  split; [exact H|].
  exact (proj1 (root_click_selects_usable 268 (Some "movie"%string) Rejects
                  (Resolves (Some Samples.batman)) App.initial Samples.batman
                  MovieModal.initial H)).
Defined.

Lemma series_result_is_opened_witness :
  Navbar.mediaTypeOf MoreSamples.series_result = "tv"%string /\
  Navbar.selectedMovie
    (Navbar.handleMovieClick MoreSamples.series_result
       (Resolves {| ok := true; json := Resolves (Some Samples.three_seasons) |})
       Rejects Samples.overlay_with_results)
  = Some (mapTV Samples.three_seasons).
Proof.
  split; [reflexivity|].
  exact (proj1 (series_result_is_opened MoreSamples.series_result
                  Samples.three_seasons Rejects Samples.overlay_with_results
                  MovieModal.initial eq_refl)).
Defined.

Lemma transition_starts_leftward_witness :
  Banner.slideDirection
    (Banner.nextSlide 4 (Banner.resting 1 0 Banner.SlideRight))
  = Banner.SlideLeft.
Proof.
  apply (transition_starts_leftward 4 (Banner.resting 1 0 Banner.SlideRight));
    cbn; (lia || reflexivity).
Defined.
